(* ===== verification/_CoqProject ===== *)
-Q . S2P
Prelude.v
JsRuntime.v
JsNumber.v
Letter.v
WordSource.v
Scoring.v
Wordle.v
Constructor.v
Game.v
Trace.v
Dictionary.v
Tests.v
