(* ===== verification/Prelude.v ===== *)
(** * A verification development of the Wordle game core (src/src/wordle.js)

    ** The program

    src/src/wordle.js holds the whole logic of the repository: the status
    table [LETTER_STATUSES], the helper [buildLetter], and [class Wordle]
    with its constructor and the methods [buildGuessFromWord],
    [appendGuess], [isSolved] and [shouldEndGame].  The class calls two
    functions of src/words.js, [getWord] (once, in the constructor) and
    [isWord] (from [appendGuess]); that file is not among the sources and is
    modelled from the spec as an interface.  src/__tests__/wordle.test.js
    replaces src/words.js by a jest mock ([getWord] returns "APPLE",
    [isWord] returns true unless a [mockReturnValueOnce(false)] is queued).

    ** Files, in dependency order

    - [Prelude] (this file): the thrown values [Exn] ([RangeError] and
      [Error msg]); the JavaScript exception monad [JS St A], a function
      from a store to a result and a store, which keeps the writes made
      before a throw; the scope [wordle_scope] with the run notation
      [m ⇓{s} r, s']; the hint databases [wordle] and [wordle_rw]; the
      Ltac [js_unfold]; shared list and decision lemmas.
    - [JsRuntime]: the built-ins the code uses, with their JavaScript edge
      cases: [??] ([nullish]), [toUpperCase], [split('')], [str[i]],
      [includes], [new Array(n).fill(v)] (a [RangeError] unless
      [0 <= n <= 2^32 - 1]), array reads ([undefined] out of range and at
      negative indices) and array stores (which extend the array with holes
      past its end); arrays are lists of [slot]s ([Hole], [Null], [Val]).
    - [JsNumber]: JavaScript numbers ([js_number]: a finite rational,
      [NaN] or an infinity), their SameValueZero equality [js_same_value]
      and the length check of [new Array(len)] ([js_array_length]), with
      its [Proper] instance for setoid rewriting.
    - [Letter]: [Status] (ABSENT, PRESENT, CORRECT), the string table
      [LETTER_STATUSES], the letter object [letter_object A B] and
      [buildLetter] (lines 3-16), polymorphic because [buildLetter] stores
      any two values, the game's letters [Letter] (a code unit and a
      status), and [is_CORRECT], the [status === CORRECT] test of
      [isSolved].
    - [WordSource]: the interface [WordSource S] of src/words.js as a
      typeclass over the source's state [S] ([getWord], [isWord]), its laws
      [WordSourceLaws] (a secret has five upper-case letters: spec, section
      6), and the jest mock [JestMock.source], whose state records the
      queued [mockReturnValueOnce] values and every call.
    - [Scoring]: [buildGuessFromWord] (lines 31-44) as a function of the
      secret [this.word] and the word, its callback's status decision as
      [letterStatus] (lines 33-40), and [Reference.score], the scoring of
      the Wordle rules (which counts repeated letters).
    - [Wordle]: the object as the record [Wordle] (fields [wordSize],
      [maxGuesses], [guesses], [word], [currGuess]); the constructor
      [new_Wordle] (lines 19-28), a computation over the source's state;
      [appendGuess] (lines 47-66), a computation over the store
      [(this, source state)] whose guards are the code's three [if]s in the
      code's order, whose [isWord] call goes to the source, and whose two
      writes are [store_guess] and [incr_currGuess]; [isSolved] and
      [shouldEndGame] (lines 69-77).  The invariant [wf] of an object.
    - [Constructor]: the constructor over any number argument,
      [new_Wordle_number], beside the integer model [new_Wordle].
    - [Game]: the abstract game [Spec] (secret, limit, accepted words) with
      [Spec.submit], [Spec.solved] and [Spec.ended]; the refinement relation
      [refines]; the step relation [reachable] (construction, any
      [appendGuess] call, any use of the shared word source by other code);
      the client [play] that chains [appendGuess] calls; the relation
      [accepts] of one accepted guess and its measure [guesses_left].
    - [Trace]: a caller's run of several calls, [session_trace], and the
      same run of the abstract game, [spec_trace].
    - [Dictionary]: src/words.js as the spec describes it, a word list
      (a module constant, so the source's state is indexed by it) with a
      random pick ([pick], the draws of [Math.random] as a stream in the
      state) and a membership test; a valid list ([ValidDictionary]:
      non-empty, five-letter upper-case words) satisfies [WordSourceLaws].
    - [Tests]: the jest suite of src/__tests__/wordle.test.js, each of its
      20 tests a computation over the mock's state, run in file order by
      [run_suite]; it records how the suite drives the code and states no
      theorem of its own (running it is evaluation, not proof).

    ** What the theorems show

    - Scoring: each letter's status means what the spec says (C6); a guess
      as long as the secret is all [CORRECT] exactly when it equals the
      secret; the code agrees with the Wordle rules on guesses without a
      repeated letter (C13), never scores a letter below the rules and only
      ever raises a rules' ABSENT to PRESENT (C16), and does raise it at
      every out-of-place copy of a letter whose copies in the secret are
      all matched in place (C17, e.g. "PPPPP" against "APPLE"); the letters of a
      scored guess spell the word back (C22, a round trip).
    - [appendGuess], branch by branch: exhaustion, then length, then the
      dictionary, each error leaving the object untouched and the first two
      not calling [isWord] (C3-C5); on success the guess is stored in the
      slot [currGuess], inside the array, and [currGuess] grows by one (C2);
      the invariant [wf] is preserved by every call (C1).  With the mock's
      call log: [isWord] is called exactly once per call that passes the
      first two guards and never otherwise (C19); the constructor calls
      [getWord] once, and not at all when it throws (C20).
    - Constructor: [new Wordle(n)] builds a well-formed object with
      [n ?? 6] null slots (C7) and throws [RangeError] for a negative or
      too large [n] before calling [getWord] (C8); a fresh session is not
      solved (C21).
    - Refinement: [appendGuess] simulates [Spec.submit] in lock step, with
      the same results and the same source state (C9); on every reachable
      session [isSolved] and [shouldEndGame] are [Spec.solved] and
      [Spec.ended] (C10); every reachable session is well formed, its
      [guesses] array has [maxGuesses] elements and
      [0 <= currGuess <= maxGuesses <= 2^32 - 1] (C11).
    - Typing of the store: in a reachable session the [guesses] array has
      no holes, [null]s from [currGuess] on, and before it arrays of five
      upper-case letters (C23).
    - Termination and liveness: a chain of accepted guesses is no longer
      than the guesses left, and one that uses them all ends the game
      (C12); accepting a guess is a well-founded relation, by the measure
      [maxGuesses - currGuess] (C24); a session not yet ended can be ended
      by submitting the secret, when the dictionary accepts it (C25).
    - The dictionary source: [appendGuess] returns exactly when a guess is
      left, the length is right and the word is in the list, and never
      changes the source (C14); every reachable session over a valid
      dictionary can be ended by submitting its secret, with no hypothesis
      on what [isWord] answers (C15).
    - Boundary: [new Wordle(0)] is ended from the start, is not solved
      ([guesses[-1]] is [undefined]) and rejects every guess (C26).
    - Any number as constructor argument: it throws [RangeError] exactly
      for a fraction, [NaN], an infinity or a number out of
      [0 .. 2^32 - 1], before [getWord] is called, and otherwise builds
      the object of [new_Wordle] for the integer it equals (C27);
      numerically equal arguments give the same object (the [Proper]
      instance [new_Wordle_number_proper]).
    - Whole runs: for any sequence of words, the trace of outcomes,
      [isSolved] and [shouldEndGame] is the abstract game's (C28).
    - Behaviour the spec leaves open: [appendGuess] keeps accepting guesses
      after a solve, and [shouldEndGame] turns false again (C18).

    ** Integers and bounds

    JavaScript numbers are modelled as [Z].  [maxGuesses] is bounded by the
    array constructor ([RangeError] past [2^32 - 1]), so [currGuess], which
    never exceeds it (C11), stays far below [2^53] and the double arithmetic
    of [currGuess += 1] is exact; no fuel is used anywhere: every definition
    is structural.

    ** Not modelled

    - Characters beyond ASCII: [toUpperCase] is the ASCII case mapping, so
      a non-ASCII letter whose upper case has a different length ("ß" to
      "SS") is outside the model.
    - Constructor arguments that are not numbers (a string, a boolean, an
      object): [new Array(x)] then makes the array [[x]] and every later
      comparison coerces [maxGuesses]; the object's [maxGuesses] would no
      longer be a number, which the record [Wordle] does not represent.
      The number [-0] is not told apart from [0], which it behaves as.
    - The actual word list of src/words.js and [Math.random]: the
      dictionary is any list, the draws any stream of indices.
    - The value [appendGuess] returns, [this]: the store already holds the
      object, and [play] models the chained calls.
    - Any user interface: the repository has none. *)

From stdpp Require Import base list decidable strings.
From Stdlib Require Import ZArith.

(** ** Thrown JavaScript values

    The code throws two kinds of values: [new Error(msg)] from
    [Wordle.prototype.appendGuess] and the [RangeError] that the array
    constructor [new Array(n)] raises in the [Wordle] constructor. *)
Inductive Exn : Type :=
  | RangeError
  | Error (message : string).

#[export] Instance Exn_eq_dec : EqDecision Exn.
Proof. solve_decision. Defined.

(** ** The JavaScript exception monad over an explicit store

    A computation reads and writes a store [St] and either returns a value
    or throws an [Exn].  Unlike a state transformer over [sum], a throw
    keeps the store as it was at the point of the throw: JavaScript does
    not roll back the writes that precede an exception. *)
Definition JS (St A : Type) : Type := St -> (Exn + A) * St.

#[export] Instance JS_ret {St} : MRet (JS St) :=
  fun A a s => (inr a, s).
#[export] Instance JS_bind {St} : MBind (JS St) :=
  fun A B f m s =>
    match m s with
    | (inl e, s') => (inl e, s')
    | (inr a, s') => f a s'
    end.
#[export] Instance JS_throw {St} : MThrow Exn (JS St) :=
  fun A e s => (inl e, s).

Definition js_get {St} : JS St St := fun s => (inr s, s).
Definition js_modify {St} (f : St -> St) : JS St unit := fun s => (inr tt, f s).

(** Lift a total, possibly failing, pure result into the monad. *)
Definition js_lift {St A} (r : Exn + A) : JS St A := fun s => (r, s).

(** Run a computation on one component of a larger store. *)
Definition js_focus {St Big A} (get : Big -> St) (set : St -> Big -> Big)
    (m : JS St A) : JS Big A :=
  fun b => let '(r, s') := m (get b) in (r, set s' b).

(** [try { m } catch (e) { ... }]: the outcome of [m], thrown or returned,
    as a value; the store keeps the writes [m] made. *)
Definition js_try {St A} (m : JS St A) : JS St (Exn + A) :=
  fun s => let '(r, s') := m s in (inr r, s').

Declare Scope wordle_scope.
Delimit Scope wordle_scope with wordle.
Open Scope wordle_scope.

Notation "'throw' e" := (mthrow e) (at level 10, e at level 9) : wordle_scope.
(** [m ⇓{ s } r , s'] : run in store [s], computation [m] ends with result
    [r] (a thrown [inl] or a returned [inr]) and store [s']. *)
Notation "m ⇓{ s } r , s'" := (m s = (r, s'))
  (at level 70, r at next level, format "m  ⇓{ s }  r ,  s'") : wordle_scope.

Create HintDb wordle discriminated.
Create Rewrite HintDb wordle_rw.

(** ** The monad's laws, as rewriting rules *)
Section monad_laws.
Context {St : Type}.

Lemma js_ret_bind {A B} (a : A) (f : A -> JS St B) s :
  (mret a ≫= f) s = f a s.
Proof. reflexivity. Qed.

Lemma js_bind_assoc {A B C} (m : JS St A) (f : A -> JS St B) (g : B -> JS St C) s :
  ((m ≫= f) ≫= g) s = (m ≫= fun a => f a ≫= g) s.
Proof. cbv [mbind JS_bind]. destruct (m s) as [[e|a] s']; reflexivity. Qed.

Lemma js_throw_bind {A B} (e : Exn) (f : A -> JS St B) s :
  ((throw e : JS St A) ≫= f) s = (inl e, s).
Proof. reflexivity. Qed.

Lemma js_bind_inr {A B} (m : JS St A) (f : A -> JS St B) s a s' :
  m s = (inr a, s') -> (m ≫= f) s = f a s'.
Proof. cbv [mbind JS_bind]. intros ->. reflexivity. Qed.

Lemma js_bind_inl {A B} (m : JS St A) (f : A -> JS St B) s e s' :
  m s = (inl e, s') -> (m ≫= f) s = (inl e, s').
Proof. cbv [mbind JS_bind]. intros ->. reflexivity. Qed.
End monad_laws.

#[export] Hint Rewrite @js_ret_bind @js_bind_assoc @js_throw_bind : wordle_rw.

(** [js_unfold] exposes the code of a monadic computation to [simpl]. *)
Ltac js_unfold :=
  cbv [mbind mret mthrow JS_bind JS_ret JS_throw js_get js_modify js_lift js_focus js_try] in *.

(** ** Shared list lemmas *)

Lemma forallb_lookup {A} (f : A -> bool) (l : list A) :
  forallb f l = true <-> forall i x, l !! i = Some x -> f x = true.
Proof. rewrite forallb_forall. setoid_rewrite <-list_elem_of_In.
  split; [intros H i x Hi; apply H; by eapply list_elem_of_lookup_2|].
  intros H x Hx. apply list_elem_of_lookup in Hx as [i Hi]. eauto.
Qed.

#[export] Hint Resolve length_app : wordle.

Lemma bool_decide_of_iff (b : bool) (P : Prop) `{!Decision P} :
  (b = true <-> P) -> b = bool_decide P.
Proof.
  intros H. destruct b; symmetry;
    [apply bool_decide_eq_true | apply bool_decide_eq_false]; naive_solver.
Qed.
