(* ===== verification/JsRuntime.v ===== *)
(** * The JavaScript built-ins that src/src/wordle.js relies on

    Strings are Stdlib [string]s of 8-bit code units; [toUpperCase] is the
    ASCII case mapping (exact on ASCII input, the alphabet of the game).
    Arrays are lists of [slot]s, distinguishing a hole or an out-of-range
    read ([undefined]) from a stored [null] and a stored value, and the
    array store extends the array past its end as JavaScript does. *)

From stdpp Require Import base list decidable strings.
From Stdlib Require Import ZArith Ascii.
From S2P Require Import Prelude.

Local Open Scope Z_scope.

(** ** Nullish coalescing [a ?? d]: [None] stands for [undefined]/[null]. *)
Definition nullish {A} (a : option A) (d : A) : A :=
  match a with Some x => x | None => d end.

(** ** Strings *)

(** [String.prototype.toUpperCase] on one code unit. *)
Definition ascii_toUpper (c : ascii) : ascii :=
  let n := nat_of_ascii c in
  if (97 <=? n)%nat && (n <=? 122)%nat then ascii_of_nat (n - 32) else c.

Definition is_lower (c : ascii) : bool :=
  let n := nat_of_ascii c in (97 <=? n)%nat && (n <=? 122)%nat.

(** [s.split('')]: the code units of [s], in order. *)
Definition js_split (s : string) : list ascii := String.list_ascii_of_string s.

Definition js_toUpperCase (s : string) : string :=
  String.string_of_list_ascii (map ascii_toUpper (js_split s)).

(** [s.length], a number. *)
Definition js_length (s : string) : Z := Z.of_nat (String.length s).

(** [s[i]]: the code unit at [i], or [undefined] ([None]) past the end. *)
Definition js_string_at (s : string) (i : nat) : option ascii := String.get i s.

(** [s.includes(c)] for a one-unit string [c]. *)
Definition js_includes_char (s : string) (c : ascii) : bool :=
  bool_decide (c ∈ js_split s).

(** ** Arrays *)

Inductive slot (A : Type) : Type :=
  | Hole              (** an absent element: reads as [undefined] *)
  | Null              (** the value [null] *)
  | Val (v : A).
Arguments Hole {A}.
Arguments Null {A}.
Arguments Val {A} v.

#[export] Instance slot_eq_dec {A} `{EqDecision A} : EqDecision (slot A).
Proof. solve_decision. Defined.

(** The largest array length, [2^32 - 1]. *)
Definition js_max_length : Z := 2 ^ 32 - 1.

(** [new Array(n).fill(v)]: [RangeError] unless [n] is a valid length. *)
Definition js_new_array_fill {A} (n : Z) (v : slot A) : Exn + list (slot A) :=
  if (0 <=? n) && (n <=? js_max_length) then inr (replicate (Z.to_nat n) v)
  else inl RangeError.

(** [a[i]] for a number [i]: a negative or out-of-range index reads [undefined]. *)
Definition js_array_get {A} (a : list (slot A)) (i : Z) : slot A :=
  if i <? 0 then Hole else default Hole (a !! Z.to_nat i).

(** [a[i] = v]: in range it replaces the element; past the end it extends
    the array with holes; an [i] that is not an array index (negative, or at
    least [2^32 - 1]) sets a plain property and leaves the elements alone. *)
Definition js_array_set {A} (a : list (slot A)) (i : Z) (v : slot A) : list (slot A) :=
  if (i <? 0) || (js_max_length <=? i) then a
  else if (Z.to_nat i <? length a)%nat then <[Z.to_nat i := v]> a
  else a ++ replicate (Z.to_nat i - length a) Hole ++ [v].

(** [a.every(p)] on a dense array. *)
Definition js_every {A} (p : A -> bool) (a : list A) : bool := forallb p a.

(** ** Lemmas *)

Lemma ascii_toUpper_not_lower c : is_lower (ascii_toUpper c) = false.
Proof.
  destruct c as [[] [] [] [] [] [] [] []]; reflexivity.
Qed.

Lemma ascii_toUpper_id c : is_lower c = false -> ascii_toUpper c = c.
Proof. unfold ascii_toUpper, is_lower. cbv zeta. intros ->. reflexivity. Qed.

Lemma js_split_toUpperCase s : js_split (js_toUpperCase s) = map ascii_toUpper (js_split s).
Proof. unfold js_toUpperCase, js_split. apply String.list_ascii_of_string_of_list_ascii. Qed.

Lemma js_split_length s : length (js_split s) = String.length s.
Proof. unfold js_split. induction s as [|c s IH]; simpl; congruence. Qed.

Lemma js_split_inj s1 s2 : js_split s1 = js_split s2 -> s1 = s2.
Proof.
  intros H. rewrite <-(String.string_of_list_ascii_of_string s1),
    <-(String.string_of_list_ascii_of_string s2). unfold js_split in H. by rewrite H.
Qed.

Lemma js_string_at_lookup s i : js_string_at s i = js_split s !! i.
Proof. revert i. induction s as [|c s IH]; intros [|i]; simpl; auto. Qed.

Lemma js_length_toUpperCase s : js_length (js_toUpperCase s) = js_length s.
Proof.
  unfold js_length. f_equal. rewrite <-!js_split_length, js_split_toUpperCase.
  apply length_map.
Qed.

Lemma js_toUpperCase_idem s : js_toUpperCase (js_toUpperCase s) = js_toUpperCase s.
Proof.
  apply js_split_inj. rewrite !js_split_toUpperCase, map_map.
  apply map_ext. intros c. apply ascii_toUpper_id, ascii_toUpper_not_lower.
Qed.

Lemma js_includes_char_spec s c : js_includes_char s c = true <-> c ∈ js_split s.
Proof. unfold js_includes_char. apply bool_decide_eq_true. Qed.

Lemma js_new_array_fill_ok {A} n (v : slot A) :
  0 <= n <= js_max_length -> js_new_array_fill n v = inr (replicate (Z.to_nat n) v).
Proof.
  unfold js_new_array_fill. intros [H1 H2].
  apply Z.leb_le in H1, H2. by rewrite H1, H2.
Qed.

Lemma js_new_array_fill_range {A} n (v : slot A) :
  n < 0 \/ js_max_length < n -> js_new_array_fill n v = inl RangeError.
Proof.
  unfold js_new_array_fill. intros Hn.
  destruct (Z.leb_spec 0 n), (Z.leb_spec n js_max_length); simpl; auto; lia.
Qed.

Section array_store.
Context {A : Type}.
Implicit Types (a : list (slot A)) (v : slot A).

Lemma js_array_set_in_range a i v :
  0 <= i < Z.of_nat (length a) -> i < js_max_length ->
  js_array_set a i v = <[Z.to_nat i := v]> a.
Proof.
  intros Hi Hmax. unfold js_array_set.
  destruct (Z.ltb_spec i 0), (Z.leb_spec js_max_length i); try lia.
  simpl. destruct (Nat.ltb_spec (Z.to_nat i) (length a)); [done | lia].
Qed.

Lemma js_array_set_length a i v :
  0 <= i < Z.of_nat (length a) -> i < js_max_length ->
  length (js_array_set a i v) = length a.
Proof. intros ??. rewrite js_array_set_in_range by done. apply length_insert. Qed.

Lemma js_array_get_in_range a i :
  0 <= i -> js_array_get a i = default Hole (a !! Z.to_nat i).
Proof. unfold js_array_get. intros Hi. by destruct (Z.ltb_spec i 0); [lia|]. Qed.

Lemma js_array_get_set_eq a i v :
  0 <= i < js_max_length -> js_array_get (js_array_set a i v) i = v.
Proof.
  intros Hi. rewrite js_array_get_in_range by lia. unfold js_array_set.
  destruct (Z.ltb_spec i 0), (Z.leb_spec js_max_length i); try lia. simpl.
  destruct (Nat.ltb_spec (Z.to_nat i) (length a)).
  - by rewrite list_lookup_insert_eq.
  - rewrite lookup_app_r by lia. rewrite lookup_app_r; rewrite length_replicate; [|lia].
    by replace (Z.to_nat i - length a - (Z.to_nat i - length a))%nat with 0%nat by lia.
Qed.
End array_store.

#[export] Hint Rewrite js_split_toUpperCase js_length_toUpperCase js_toUpperCase_idem : wordle_rw.
