(* ===== verification/JsNumber.v ===== *)
(** * JavaScript numbers, as the array constructor reads them

    The argument of [new Wordle(maxGuesses)] reaches [new Array(len)],
    which throws a [RangeError] unless [ToUint32(len)] is [len] (ECMAScript,
    the Array constructor), that is unless [len] is an integer in
    [0 .. 2^32 - 1].  A number is a finite value, [NaN] or an infinity; a
    finite double is a rational, so finite numbers are [Q]s, compared with
    [Qeq] ([12 # 2] and [6] are the same number).  [-0] is not told apart
    from [0]: the constructor treats them alike. *)

From stdpp Require Import base list decidable.
From Stdlib Require Import ZArith QArith Morphisms.
From S2P Require Import Prelude JsRuntime.

Inductive js_number : Type :=
  | JFinite (q : Q)
  | JNaN
  | JInfinity
  | JNegInfinity.

(** SameValueZero on numbers: equal finite values, or the same special value. *)
Definition js_same_value (x y : js_number) : Prop :=
  match x, y with
  | JFinite p, JFinite q => Qeq p q
  | JNaN, JNaN | JInfinity, JInfinity | JNegInfinity, JNegInfinity => True
  | _, _ => False
  end.

(** [new Array(len)] for a number [len]: its length, or the [RangeError]. *)
Definition js_array_length (n : js_number) : Exn + Z :=
  match n with
  | JFinite q =>
      if (Qnum q mod Zpos (Qden q) =? 0)%Z then
        let z := (Qnum q / Zpos (Qden q))%Z in
        if (0 <=? z)%Z && (z <=? js_max_length)%Z then inr z else inl RangeError
      else inl RangeError
  | _ => inl RangeError
  end.

(** [n] is the valid array length [z]. *)
Definition js_is_length (n : js_number) (z : Z) : Prop :=
  match n with
  | JFinite q => Qeq q (inject_Z z) /\ (0 <= z <= js_max_length)%Z
  | _ => False
  end.

(** ** Lemmas *)

#[export] Instance js_same_value_equiv : Equivalence js_same_value.
Proof.
  split.
  - intros []; simpl; [apply Qeq_refl|..]; done.
  - intros [] []; simpl; try done; apply Qeq_sym.
  - intros [] [] []; simpl; try done; apply Qeq_trans.
Qed.

Lemma Qeq_inject_Z q z : Qeq q (inject_Z z) <-> Qnum q = (z * Zpos (Qden q))%Z.
Proof. unfold Qeq, inject_Z. simpl. lia. Qed.

(** The only error is the [RangeError]. *)
Lemma js_array_length_err n e : js_array_length n = inl e -> e = RangeError.
Proof.
  destruct n as [q| | |]; simpl; try congruence.
  destruct (_ =? _)%Z; [destruct (_ && _)|]; congruence.
Qed.

Lemma js_array_length_inr n z : js_array_length n = inr z <-> js_is_length n z.
Proof.
  destruct n as [q| | |]; simpl; [|split; done..]. rewrite Qeq_inject_Z.
  destruct q as [a d]; simpl.
  destruct (Z.eqb_spec (a mod Zpos d) 0) as [Hm|Hm].
  - pose proof (Z.div_exact a (Zpos d) ltac:(lia)) as [_ Hex].
    specialize (Hex Hm). split.
    + destruct (_ && _) eqn:Hb; [|discriminate]. intros [= <-].
      apply andb_true_iff in Hb as [H1%Z.leb_le H2%Z.leb_le]. split; [lia|lia].
    + intros [-> Hz]. rewrite Z.div_mul by lia.
      by rewrite (proj2 (Z.leb_le 0 z)), (proj2 (Z.leb_le z _)) by lia.
  - split; [discriminate|]. intros [-> _]. by rewrite Z.mod_mul in Hm.
Qed.

Lemma js_array_length_inl n :
  (forall z, ~ js_is_length n z) -> js_array_length n = inl RangeError.
Proof.
  intros Hn. destruct (js_array_length n) as [e|z] eqn:Hl.
  - by rewrite (js_array_length_err _ _ Hl).
  - exfalso. apply (Hn z), js_array_length_inr, Hl.
Qed.

Lemma js_is_length_proper n1 n2 z :
  js_same_value n1 n2 -> js_is_length n1 z -> js_is_length n2 z.
Proof.
  destruct n1, n2; simpl; try done. intros Heq [Hq ?]. split; [|done].
  by rewrite <-Heq.
Qed.

(** A number and any number numerically equal to it give the same length. *)
#[export] Instance js_array_length_proper : Proper (js_same_value ==> eq) js_array_length.
Proof.
  intros n1 n2 Heq.
  destruct (js_array_length n1) as [e|z] eqn:H1.
  - destruct (js_array_length n2) as [e'|z'] eqn:H2.
    + by rewrite (js_array_length_err _ _ H1), (js_array_length_err _ _ H2).
    + apply js_array_length_inr in H2. symmetry in Heq.
      apply (js_is_length_proper _ _ _ Heq), js_array_length_inr in H2. congruence.
  - apply js_array_length_inr, (js_is_length_proper _ _ _ Heq), js_array_length_inr in H1.
    by rewrite H1.
Qed.

Lemma js_array_length_Z z :
  js_array_length (JFinite (inject_Z z)) =
  if (0 <=? z)%Z && (z <=? js_max_length)%Z then inr z else inl RangeError.
Proof. simpl. rewrite Z.mod_1_r, Z.div_1_r. reflexivity. Qed.
