(* ===== verification/Letter.v ===== *)
(** * Letters and their statuses (src/src/wordle.js, lines 3-16)

    [LETTER_STATUSES] is a frozen table of three strings; the code compares
    statuses with [===] on those strings.  The development uses an
    inductive [Status] and keeps the string table as [LETTER_STATUSES],
    whose injectivity makes the two comparisons agree. *)

From stdpp Require Import base list decidable strings.
From Stdlib Require Import Ascii.
From S2P Require Import Prelude.

Inductive Status : Type := ABSENT | PRESENT | CORRECT.

#[export] Instance Status_eq_dec : EqDecision Status.
Proof. solve_decision. Defined.

(** The string each status stands for. *)
Definition LETTER_STATUSES (s : Status) : string :=
  match s with
  | ABSENT => "ABSENT"
  | PRESENT => "PRESENT"
  | CORRECT => "CORRECT"
  end.

(** A letter object [{ letter, status }].  [buildLetter] stores whatever
    it is given (the suite's first test passes two arbitrary strings), so the
    object is polymorphic in its two fields; the game's letters, [Letter],
    hold a one-unit string and a status. *)
Record letter_object (A B : Type) : Type := mkLetter { letter : A; status : B }.
Arguments mkLetter {A B} letter status.
Arguments letter {A B} _.
Arguments status {A B} _.

#[export] Instance letter_object_eq_dec {A B} `{!EqDecision A, !EqDecision B} :
  EqDecision (letter_object A B).
Proof. solve_decision. Defined.

Definition buildLetter {A B} (letter : A) (status : B) : letter_object A B :=
  {| letter := letter; status := status |}.

Abbreviation Letter := (letter_object ascii Status).

(** A guess: the array of letter objects built from one word. *)
Abbreviation Guess := (list Letter).

(** [status === CORRECT], on the status strings. *)
Definition is_CORRECT (l : Letter) : bool :=
  bool_decide (LETTER_STATUSES (status l) = LETTER_STATUSES CORRECT).

Lemma LETTER_STATUSES_inj s1 s2 : LETTER_STATUSES s1 = LETTER_STATUSES s2 -> s1 = s2.
Proof. destruct s1, s2; simpl; congruence. Qed.

Lemma is_CORRECT_spec l : is_CORRECT l = true <-> status l = CORRECT.
Proof.
  unfold is_CORRECT. rewrite bool_decide_eq_true.
  split; [apply LETTER_STATUSES_inj | by intros ->].
Qed.

#[export] Hint Resolve LETTER_STATUSES_inj : wordle.
