(* ===== verification/WordSource.v ===== *)
(** * The word source: [getWord] and [isWord] of src/words.js

    src/words.js is not part of the sources; it is modelled from the spec
    (section 6): [getWord] selects the secret word, [isWord] tests
    dictionary membership.  Both may keep state (a random generator, a
    mock's call log), so each is a function of the source's state.  The
    laws say what the spec promises: a secret word has five upper-case
    letters.  The jest mock of src/__tests__/wordle.test.js (lines 4-10)
    is an instance, with [mockReturnValueOnce] and the call log. *)

From stdpp Require Import base list decidable strings.
From Stdlib Require Import Ascii.
From S2P Require Import Prelude JsRuntime.

Class WordSource (S : Type) : Type := {
  getWord : S -> string * S;
  isWord : string -> S -> bool * S;
}.

Class WordSourceLaws (S : Type) `{!WordSource S} : Prop := {
  getWord_length : forall s, String.length (getWord s).1 = 5;
  getWord_upper : forall s, js_toUpperCase (getWord s).1 = (getWord s).1;
}.

(** The calls as computations of the JavaScript monad. *)
Definition call_getWord {S} `{!WordSource S} : JS S string :=
  fun s => let '(w, s') := getWord s in (inr w, s').

Definition call_isWord {S} `{!WordSource S} (w : string) : JS S bool :=
  fun s => let '(b, s') := isWord w s in (inr b, s').

(** ** The jest mock of the test suite *)
Module JestMock.

(** [mockIsWord = jest.fn(() => true)] with its queue of values set by
    [mockReturnValueOnce], and the arguments of every call; [getWord] is
    [jest.fn(() => 'APPLE')] with its call count. *)
Record state : Type := mk {
  isWord_once : list bool;
  isWord_calls : list string;
  getWord_calls : nat;
}.

Definition init : state := mk [] [] 0.

#[global] Instance source : WordSource state := {
  getWord s := ("APPLE"%string, mk (isWord_once s) (isWord_calls s) (S (getWord_calls s)));
  isWord w s :=
    match isWord_once s with
    | b :: q => (b, mk q (isWord_calls s ++ [w]) (getWord_calls s))
    | [] => (true, mk [] (isWord_calls s ++ [w]) (getWord_calls s))
    end;
}.

Definition mockReturnValueOnce (b : bool) (s : state) : state :=
  mk (isWord_once s ++ [b]) (isWord_calls s) (getWord_calls s).

#[global] Instance laws : WordSourceLaws state.
Proof. split; reflexivity. Qed.

Lemma isWord_log w s : (isWord w s).2.(isWord_calls) = isWord_calls s ++ [w].
Proof. destruct s as [[|b q] c n]; reflexivity. Qed.

Lemma isWord_getWord_calls w s : (isWord w s).2.(getWord_calls) = getWord_calls s.
Proof. destruct s as [[|b q] c n]; reflexivity. Qed.

End JestMock.
