(* ===== verification/Scoring.v ===== *)
(** * Scoring a guess: [Wordle.prototype.buildGuessFromWord] (src/src/wordle.js, lines 31-44)

    [buildGuessFromWord secret word] is the method with [this.word] passed
    as [secret]: the method reads no other field and writes none.  The
    file proves what each letter's status means, that a guess is all
    [CORRECT] exactly when it is the secret word, and compares the code's
    scoring with the scoring of the Wordle rules ([Reference.score]),
    which counts repeated letters: the two agree when the guess has no
    repeated letter, the code never scores a letter lower, and it scores
    some repeated letters higher. *)

From stdpp Require Import base list decidable strings sets.
From Stdlib Require Import Ascii.
From S2P Require Import Prelude JsRuntime Letter.

#[local] Set Warnings "-clear-no-such-hyp".

(** The [status] the callback computes for [letter] at index [i]:
    [this.word[i] === letter], then [this.word.includes(letter)]. *)
Definition letterStatus (secret : string) (i : nat) (letter : ascii) : Status :=
  if bool_decide (js_string_at secret i = Some letter) then CORRECT
  else if js_includes_char secret letter then PRESENT
  else ABSENT.

(** [word.split('').map((letter, i) => buildLetter(letter, status))] *)
Definition buildGuessFromWord (secret word : string) : Guess :=
  imap (fun i letter => buildLetter letter (letterStatus secret i letter)) (js_split word).

(** ** Per-position view *)

Lemma buildGuessFromWord_lookup secret word i :
  buildGuessFromWord secret word !! i =
  (fun c => buildLetter c (letterStatus secret i c)) <$> js_split word !! i.
Proof. unfold buildGuessFromWord. by rewrite list_lookup_imap. Qed.

Lemma length_buildGuessFromWord secret word :
  length (buildGuessFromWord secret word) = String.length word.
Proof. unfold buildGuessFromWord. by rewrite length_imap, js_split_length. Qed.

Lemma letterStatus_CORRECT secret i c :
  letterStatus secret i c = CORRECT <-> js_split secret !! i = Some c.
Proof.
  unfold letterStatus. rewrite js_string_at_lookup. case_bool_decide; [done|].
  destruct (js_includes_char _ _); split; done.
Qed.

#[export] Hint Rewrite buildGuessFromWord_lookup length_buildGuessFromWord : wordle_rw.

(** ** The Wordle rules, as a reference scoring

    Greens first; then, left to right, a non-green letter is [PRESENT] only
    while an unmatched copy of it remains among the secret's non-green
    letters (the pool), and each [PRESENT] consumes one copy. *)
Module Reference.

Fixpoint remove_first (c : ascii) (l : list ascii) : list ascii :=
  match l with
  | [] => []
  | x :: l' => if decide (x = c) then l' else x :: remove_first c l'
  end.

(** Each guessed letter with whether it is green. *)
Definition greens (secret word : list ascii) : list (ascii * bool) :=
  imap (fun i c => (c, bool_decide (secret !! i = Some c))) word.

(** The secret's letters at the positions the guess does not match. *)
Definition pool (secret word : list ascii) : list ascii :=
  concat (imap (fun j c => if bool_decide (word !! j = Some c) then [] else [c]) secret).

Fixpoint mark (pool : list ascii) (gs : list (ascii * bool)) : list Status :=
  match gs with
  | [] => []
  | (c, true) :: gs' => CORRECT :: mark pool gs'
  | (c, false) :: gs' =>
      if bool_decide (c ∈ pool) then PRESENT :: mark (remove_first c pool) gs'
      else ABSENT :: mark pool gs'
  end.

Definition score (secret word : string) : list Status :=
  let s := js_split secret in
  let w := js_split word in
  mark (pool s w) (greens s w).

Lemma elem_of_remove_first c x l : x ∈ remove_first c l -> x ∈ l.
Proof.
  induction l as [|y l IH]; simpl; [done|].
  case_decide; set_solver.
Qed.

Lemma elem_of_remove_first_ne c x l : x ≠ c -> x ∈ remove_first c l <-> x ∈ l.
Proof.
  intros Hne. induction l as [|y l IH]; simpl; [done|].
  case_decide; subst; set_solver.
Qed.

Lemma elem_of_pool s w c :
  c ∈ pool s w <-> exists j, s !! j = Some c /\ w !! j ≠ Some c.
Proof.
  unfold pool. rewrite list_elem_of_In, in_concat. setoid_rewrite <-list_elem_of_In.
  split.
  - intros (l & Hl & Hc). apply list_elem_of_lookup in Hl as [j Hj].
    rewrite list_lookup_imap in Hj.
    destruct (s !! j) as [d|] eqn:Hs; simplify_eq/=.
    case_bool_decide; set_solver.
  - intros (j & Hs & Hw). exists [c]. split; [|set_solver].
    apply list_elem_of_lookup. exists j. rewrite list_lookup_imap, Hs. simpl.
    by case_bool_decide.
Qed.

End Reference.

(** The code's statuses over the same green flags. *)
Definition code_mark (secret : list ascii) (gs : list (ascii * bool)) : list Status :=
  (fun '((c, g) : ascii * bool) =>
     if g then CORRECT else if bool_decide (c ∈ secret) then PRESENT else ABSENT) <$> gs.

Lemma buildGuessFromWord_code_mark secret word :
  status <$> buildGuessFromWord secret word =
  code_mark (js_split secret) (Reference.greens (js_split secret) (js_split word)).
Proof.
  unfold buildGuessFromWord, code_mark, Reference.greens.
  rewrite !fmap_imap. apply imap_ext. intros i c _. simpl.
  unfold letterStatus. by rewrite js_string_at_lookup.
Qed.

(** [rule ⊑ code]: the code gives the rules' status, or raises a rules'
    [ABSENT] to [PRESENT]. *)
Definition over_credits (rule code : Status) : Prop :=
  rule = code \/ (rule = ABSENT /\ code = PRESENT).

Section marks.
Context (secret : list ascii).

Lemma mark_over_credits pool gs :
  (forall x, x ∈ pool -> x ∈ secret) ->
  Forall2 over_credits (Reference.mark pool gs) (code_mark secret gs).
Proof.
  unfold over_credits. revert pool.
  induction gs as [|[c [|]] gs IH]; intros pool Hpool; simpl.
  - constructor.
  - constructor; auto.
  - case_bool_decide; constructor.
    + case_bool_decide; naive_solver.
    + apply IH. eauto using Reference.elem_of_remove_first.
    + case_bool_decide; naive_solver.
    + auto.
Qed.

Lemma mark_nodup pool gs :
  NoDup gs.*1 ->
  (forall c, (c, false) ∈ gs -> c ∈ pool <-> c ∈ secret) ->
  Reference.mark pool gs = code_mark secret gs.
Proof.
  revert pool. induction gs as [|[c g] gs IH]; intros pool Hnd Hpool; [done|].
  simpl in Hnd. apply NoDup_cons in Hnd as [Hc Hnd].
  assert (forall c', (c', false) ∈ gs -> c' ≠ c).
  { intros c' Hin ->. apply Hc, list_elem_of_fmap. by exists (c, false). }
  destruct g; simpl; [f_equal; apply IH; set_solver|].
  assert (c ∈ pool <-> c ∈ secret) as Hiff by (apply Hpool; constructor).
  assert (forall c', (c', false) ∈ gs -> c' ∈ pool <-> c' ∈ secret) as Hgs
    by (intros c' Hc'; apply Hpool; by constructor).
  destruct (decide (c ∈ pool)) as [Hin|Hnin].
  - rewrite !bool_decide_eq_true_2 by tauto. f_equal. apply IH; [done|].
    intros c' Hc'. rewrite Reference.elem_of_remove_first_ne by eauto. auto.
  - rewrite !bool_decide_eq_false_2 by tauto. f_equal. by apply IH.
Qed.
End marks.

Lemma greens_fst s w : (Reference.greens s w).*1 = w.
Proof.
  unfold Reference.greens. rewrite fmap_imap.
  apply list_eq. intros i. rewrite list_lookup_imap. by destruct (w !! i).
Qed.

Lemma elem_of_greens s w c g :
  (c, g) ∈ Reference.greens s w <->
  exists i, w !! i = Some c /\ g = bool_decide (s !! i = Some c).
Proof.
  unfold Reference.greens. rewrite list_elem_of_lookup.
  setoid_rewrite list_lookup_imap.
  split; intros [i Hi]; exists i; destruct (w !! i); naive_solver.
Qed.

(** ** Properties of the scoring *)

(** C6: the status of every letter of a scored guess is the one the spec
    describes: [CORRECT] when the secret has the same letter at the same
    position, [PRESENT] when it has it elsewhere only, [ABSENT] when it does
    not contain it at all; and the letters spell the guessed word. *)
Theorem buildGuessFromWord_status secret word i l :
  buildGuessFromWord secret word !! i = Some l ->
  js_split word !! i = Some (letter l) /\
  (status l = CORRECT <-> js_string_at secret i = Some (letter l)) /\
  (status l = PRESENT <->
     js_string_at secret i ≠ Some (letter l) /\ js_includes_char secret (letter l) = true) /\
  (status l = ABSENT <-> js_includes_char secret (letter l) = false).
Proof.
  rewrite buildGuessFromWord_lookup.
  destruct (js_split word !! i) as [c|] eqn:Hw; [|done]. intros [= <-]. simpl.
  unfold letterStatus. rewrite js_string_at_lookup.
  pose proof (js_includes_char_spec secret c) as Hinc.
  assert (js_split secret !! i = Some c -> c ∈ js_split secret)
    by (intros; eapply list_elem_of_lookup; eauto).
  destruct (js_includes_char secret c); case_bool_decide; naive_solver.
Qed.

(** Witness of C6: the test "sets the status of a present letter to
    PRESENT": "E____" against "APPLE" at position 0. *)
Lemma buildGuessFromWord_status_witness :
  buildGuessFromWord "APPLE" "E____" !! 0 = Some (buildLetter "E"%char PRESENT) /\
  status (buildLetter "E"%char PRESENT) = PRESENT.
Proof.
  split; [vm_compute; reflexivity|].
  pose proof (buildGuessFromWord_status "APPLE" "E____" 0 (buildLetter "E"%char PRESENT)
                eq_refl) as (_ & _ & HP & _).
  apply HP. split; [discriminate | reflexivity].
Defined.

(** A guess as long as the secret is all [CORRECT] exactly when it is the
    secret word: what [isSolved] relies on (see [Game.isSolved_refines]). *)
Lemma buildGuessFromWord_all_correct secret word :
  String.length word = String.length secret ->
  js_every is_CORRECT (buildGuessFromWord secret word) = true <-> word = secret.
Proof.
  intros Hlen. unfold js_every. rewrite forallb_lookup.
  setoid_rewrite is_CORRECT_spec. setoid_rewrite buildGuessFromWord_lookup.
  split.
  - intros Hall. apply js_split_inj, list_eq. intros i.
    destruct (js_split word !! i) as [c|] eqn:Hw.
    + symmetry. apply letterStatus_CORRECT, (Hall i (buildLetter c _)). by rewrite Hw.
    + symmetry. apply lookup_ge_None. apply lookup_ge_None in Hw.
      rewrite !js_split_length in *. lia.
  - intros -> i l. destruct (js_split secret !! i) as [c|] eqn:Hs; [|done].
    intros [= <-]. by apply letterStatus_CORRECT.
Qed.

(** C13: on a guess with no repeated letter the code scores exactly as the
    Wordle rules do (the reference scoring that counts copies). *)
Theorem buildGuessFromWord_rules_nodup secret word :
  NoDup (js_split word) ->
  status <$> buildGuessFromWord secret word = Reference.score secret word.
Proof.
  intros Hnd. rewrite buildGuessFromWord_code_mark. unfold Reference.score.
  symmetry. apply mark_nodup; [by rewrite greens_fst|].
  intros c (i & Hw & Hg)%elem_of_greens. symmetry in Hg.
  apply bool_decide_eq_false in Hg.
  rewrite Reference.elem_of_pool. split.
  - intros (j & Hj & _). by eapply list_elem_of_lookup_2.
  - intros Hc. apply list_elem_of_lookup in Hc as [j Hj]. exists j.
    split; [done|]. intros Hwj.
    by pose proof (NoDup_lookup _ _ _ _ Hnd Hw Hwj) as ->.
Qed.

(** Witness of C13: "PAPER"'s repeated P makes it unsuitable; "PLANE" has
    no repeated letter. *)
Lemma buildGuessFromWord_rules_nodup_witness :
  status <$> buildGuessFromWord "APPLE" "PLANE" = Reference.score "APPLE" "PLANE".
Proof. apply buildGuessFromWord_rules_nodup. apply (bool_decide_unpack _). vm_compute. reflexivity. Defined.

(** C16: whatever the guess, the code gives every letter the status of the
    Wordle rules, except that it may raise a rules' [ABSENT] to [PRESENT]:
    it never under-credits a letter, and its [CORRECT]s are the rules'. *)
Theorem buildGuessFromWord_over_credits secret word :
  Forall2 over_credits (Reference.score secret word) (status <$> buildGuessFromWord secret word).
Proof.
  rewrite buildGuessFromWord_code_mark. apply mark_over_credits.
  intros x (j & Hj & _)%Reference.elem_of_pool. by eapply list_elem_of_lookup_2.
Qed.

(** A letter that is not green and not in the pool is marked [ABSENT] by
    the rules, wherever it stands: the pool only shrinks as [mark] uses it. *)
Lemma mark_absent pool gs i c :
  gs !! i = Some (c, false) -> c ∉ pool -> Reference.mark pool gs !! i = Some ABSENT.
Proof.
  revert pool i. induction gs as [|[x []] gs IH]; intros pool [|i] Hi Hc; simpl in *;
    try done; simplify_eq.
  - by apply IH.
  - by rewrite bool_decide_eq_false_2.
  - case_bool_decide; simpl; apply IH; try done.
    intros Hx. apply Hc. by eapply Reference.elem_of_remove_first.
Qed.

Lemma greens_lookup s w i :
  Reference.greens s w !! i = (fun c => (c, bool_decide (s !! i = Some c))) <$> w !! i.
Proof. unfold Reference.greens. by rewrite list_lookup_imap. Qed.

(** C17: the code over-credits repeated letters: at any position [i] where
    the guess has a letter [c] out of place, [c] occurs in the secret, and
    every copy of [c] in the secret is already matched in place by the
    guess, the code marks [i] [PRESENT] ([this.word.includes(letter)])
    where the rules, which count the copies, mark it [ABSENT] ("PPPPP"
    against "APPLE" at positions 0, 3 and 4). *)
Theorem buildGuessFromWord_repeated_letters secret word i c :
  js_split word !! i = Some c -> js_split secret !! i <> Some c ->
  c ∈ js_split secret ->
  (forall j, js_split secret !! j = Some c -> js_split word !! j = Some c) ->
  (status <$> buildGuessFromWord secret word) !! i = Some PRESENT /\
  Reference.score secret word !! i = Some ABSENT.
Proof.
  intros Hw Hs Hin Hall. split.
  - rewrite list_lookup_fmap, buildGuessFromWord_lookup, Hw. simpl.
    unfold letterStatus. rewrite js_string_at_lookup, bool_decide_eq_false_2 by done.
    by rewrite (proj2 (js_includes_char_spec secret c) Hin).
  - apply (mark_absent _ _ _ c).
    + rewrite greens_lookup, Hw. simpl. by rewrite bool_decide_eq_false_2.
    + intros Hp. apply Reference.elem_of_pool in Hp as (j & Hj & Hne).
      by apply Hne, Hall.
Qed.

(** Witness of C17: "PPPPP" against "APPLE" at position 0. *)
Lemma buildGuessFromWord_repeated_letters_witness :
  (status <$> buildGuessFromWord "APPLE" "PPPPP") !! 0%nat = Some PRESENT /\
  Reference.score "APPLE" "PPPPP" !! 0%nat = Some ABSENT.
Proof.
  apply (buildGuessFromWord_repeated_letters "APPLE" "PPPPP" 0 "P"%char).
  - reflexivity.
  - discriminate.
  - vm_compute. repeat constructor.
  - intros [|[|[|[|[|j]]]]] Hj; vm_compute in Hj |- *; congruence.
Defined.

Lemma buildGuessFromWord_letters secret word :
  letter <$> buildGuessFromWord secret word = js_split word.
Proof.
  unfold buildGuessFromWord. rewrite fmap_imap.
  apply list_eq. intros i. rewrite list_lookup_imap. by destruct (js_split word !! i).
Qed.

(** C22: a scored guess keeps the word: reading back the [letter] fields of
    [buildGuessFromWord secret word] in order gives [word] again, whatever
    the secret. *)
Theorem buildGuessFromWord_letters_roundtrip secret word :
  String.string_of_list_ascii (letter <$> buildGuessFromWord secret word) = word.
Proof. rewrite buildGuessFromWord_letters. apply String.string_of_list_ascii_of_string. Qed.
