(* ===== verification/Wordle.v ===== *)
(** * The game session: [class Wordle] (src/src/wordle.js, lines 18-78)

    The object's fields are the record [Wordle]; the constructor is
    [new_Wordle], a computation over the word source's state (it calls
    [getWord]); [appendGuess] is a computation over the store
    [(this, source state)] that throws the code's [Error]s and keeps the
    store as it was at the throw; [isSolved] and [shouldEndGame] read the
    object.  The file proves the outcome of every branch of [appendGuess]
    and of the constructor, and the well-formedness invariant of the
    object. *)

From stdpp Require Import base list decidable strings.
From Stdlib Require Import ZArith Ascii.
From S2P Require Import Prelude JsRuntime Letter WordSource Scoring.

Local Open Scope Z_scope.

Record Wordle : Type := mkWordle {
  wordSize : Z;
  maxGuesses : Z;
  guesses : list (slot Guess);
  word : string;
  currGuess : Z;
}.

(** The messages of the three [Error]s of [appendGuess]. *)
Definition err_no_more_guesses : Exn := Error "No more guesses allowed".
Definition err_length : Exn := Error "Guess must be of length 5".
Definition err_not_a_word : Exn := Error "Guess must be a word".

Section session.
Context {S : Type} `{!WordSource S}.

(** [constructor(maxGuesses)], after the field initialisers
    [wordSize = 5] and [maxGuesses = 6]. *)
Definition new_Wordle (maxGuesses_arg : option Z) : JS S Wordle :=
  let maxGuesses := nullish maxGuesses_arg 6 in
  guesses ← js_lift (js_new_array_fill maxGuesses Null);
  word ← call_getWord;
  mret {| wordSize := 5; maxGuesses := maxGuesses; guesses := guesses;
          word := word; currGuess := 0 |}.

(** Reading [this], writing it, and calling the word source. *)
Definition this : JS (Wordle * S) Wordle := fun st => (inr st.1, st).
Definition update_this (f : Wordle -> Wordle) : JS (Wordle * S) unit :=
  js_modify (fun st => (f st.1, st.2)).
Definition on_source {A} (m : JS S A) : JS (Wordle * S) A :=
  js_focus snd (fun s st => (st.1, s)) m.

(** [this.guesses[this.currGuess] = v] and [this.currGuess += 1]. *)
Definition store_guess (v : Guess) (w : Wordle) : Wordle :=
  {| wordSize := wordSize w; maxGuesses := maxGuesses w;
     guesses := js_array_set (guesses w) (currGuess w) (Val v);
     word := word w; currGuess := currGuess w |}.
Definition incr_currGuess (w : Wordle) : Wordle :=
  {| wordSize := wordSize w; maxGuesses := maxGuesses w; guesses := guesses w;
     word := word w; currGuess := currGuess w + 1 |}.

(** [appendGuess(word)]; it returns [this], which the store already is. *)
Definition appendGuess (guess : string) : JS (Wordle * S) unit :=
  self ← this;
  let normalizedWord := js_toUpperCase guess in
  if maxGuesses self <=? currGuess self then throw err_no_more_guesses else
  if negb (js_length normalizedWord =? wordSize self) then throw err_length else
  ok ← on_source (call_isWord normalizedWord);
  if negb ok then throw err_not_a_word else
  update_this (store_guess (buildGuessFromWord (word self) normalizedWord));;
  update_this incr_currGuess.

(** [isSolved()]: [this.guesses[this.currGuess - 1]?.every(...) ?? false]. *)
Definition isSolved (self : Wordle) : bool :=
  match js_array_get (guesses self) (currGuess self - 1) with
  | Val latest => js_every is_CORRECT latest
  | _ => false
  end.

(** [shouldEndGame()] *)
Definition shouldEndGame (self : Wordle) : bool :=
  isSolved self || (maxGuesses self <=? currGuess self).

End session.

(** ** The invariant of a session object

    [wordSize] is 5; [0 <= currGuess <= maxGuesses <= 2^32 - 1]; the
    [guesses] array holds the [currGuess] guesses made so far, each of
    [wordSize] letters, followed by [null]s up to [maxGuesses] (spec,
    section 3). *)
Definition wf (g : Wordle) : Prop :=
  wordSize g = 5 /\
  0 <= currGuess g <= maxGuesses g /\ maxGuesses g <= js_max_length /\
  exists played : list Guess,
    guesses g = (Val <$> played) ++ replicate (Z.to_nat (maxGuesses g - currGuess g)) Null /\
    length played = Z.to_nat (currGuess g) /\
    Forall (fun l => length l = 5%nat) played.

Lemma wf_length g : wf g -> length (guesses g) = Z.to_nat (maxGuesses g).
Proof.
  intros (_ & Hc & _ & played & -> & Hlen & _).
  rewrite length_app, length_fmap, length_replicate. lia.
Qed.

Lemma wf_store_incr g v :
  wf g -> currGuess g < maxGuesses g -> length v = 5%nat ->
  wf (incr_currGuess (store_guess v g)).
Proof.
  intros (Hsz & Hc & Hmax & played & Hgs & Hlen & Hall) Hlt Hv.
  split; [done|]. simpl. split; [lia|]. split; [done|].
  exists (played ++ [v]). split; [|split].
  - rewrite js_array_set_in_range; cycle 1.
    { rewrite Hgs, length_app, length_fmap, length_replicate. lia. }
    { lia. }
    rewrite Hgs, fmap_app.
    replace (Z.to_nat (maxGuesses g - currGuess g)) with
      (S (Z.to_nat (maxGuesses g - (currGuess g + 1)))) by lia.
    rewrite replicate_S, <-app_assoc.
    replace (Z.to_nat (currGuess g)) with (length (Val <$> played) + 0)%nat
      by (rewrite length_fmap; lia).
    by rewrite insert_app_r.
  - rewrite length_app. simpl. lia.
  - by apply Forall_app_2; [|constructor].
Qed.

(** [appendGuess] as the code runs it, before any case analysis; [js_reduce]
    continues the run once a guard has been decided. *)
Ltac js_reduce := cbn -[js_toUpperCase js_length buildGuessFromWord js_array_set isWord].
Ltac appendGuess_unfold :=
  unfold appendGuess, this, update_this, on_source, call_isWord; js_unfold; js_reduce.

Section session_props.
Context {S : Type} `{!WordSource S}.
Implicit Types (g : Wordle) (s : S).

(** The run of [appendGuess], branch by branch, in the order of the code. *)
Lemma appendGuess_run g s guess :
  appendGuess guess (g, s) =
  if maxGuesses g <=? currGuess g then (inl err_no_more_guesses, (g, s))
  else if negb (js_length (js_toUpperCase guess) =? wordSize g) then (inl err_length, (g, s))
  else let '(ok, s') := isWord (js_toUpperCase guess) s in
       if ok then
         (inr tt, (incr_currGuess
                     (store_guess (buildGuessFromWord (word g) (js_toUpperCase guess)) g), s'))
       else (inl err_not_a_word, (g, s')).
Proof.
  appendGuess_unfold.
  destruct (maxGuesses g <=? currGuess g); [done|].
  destruct (negb _); [done|]. js_reduce.
  by destruct (isWord _ _) as [[|] s'].
Qed.

(** C3: when every guess is used up, [appendGuess] throws "No more
    guesses allowed" whatever the word, and the object and the word
    source are untouched ([isWord] is not called). *)
Theorem appendGuess_exhausted g s guess :
  maxGuesses g <= currGuess g ->
  appendGuess guess (g, s) = (inl err_no_more_guesses, (g, s)).
Proof. intros H. by rewrite appendGuess_run, (proj2 (Z.leb_le _ _) H). Qed.

(** C4: with guesses left, a word whose upper-cased length is not
    [wordSize] makes [appendGuess] throw "Guess must be of length 5",
    before [isWord] is consulted, leaving object and source untouched. *)
Theorem appendGuess_bad_length g s guess :
  currGuess g < maxGuesses g ->
  js_length (js_toUpperCase guess) ≠ wordSize g ->
  appendGuess guess (g, s) = (inl err_length, (g, s)).
Proof.
  intros H1 H2.
  by rewrite appendGuess_run, (proj2 (Z.leb_gt _ _) H1), (proj2 (Z.eqb_neq _ _) H2).
Qed.

(** C5: with guesses left and the right length, a word the source
    rejects makes [appendGuess] throw "Guess must be a word"; the object
    is untouched and the source has seen exactly that one call. *)
Theorem appendGuess_not_a_word g s s' guess :
  currGuess g < maxGuesses g ->
  js_length (js_toUpperCase guess) = wordSize g ->
  isWord (js_toUpperCase guess) s = (false, s') ->
  appendGuess guess (g, s) = (inl err_not_a_word, (g, s')).
Proof.
  intros H1 H2 H3.
  by rewrite appendGuess_run, (proj2 (Z.leb_gt _ _) H1), (proj2 (Z.eqb_eq _ _) H2), H3.
Qed.

(** C2: a valid word is scored against [this.word] and stored in the
    slot [currGuess], inside the array (which keeps its length), and
    [currGuess] goes up by one; nothing else of the object changes. *)
Theorem appendGuess_ok g s s' guess :
  wf g -> currGuess g < maxGuesses g ->
  js_length (js_toUpperCase guess) = wordSize g ->
  isWord (js_toUpperCase guess) s = (true, s') ->
  exists g', appendGuess guess (g, s) = (inr tt, (g', s')) /\
    currGuess g' = currGuess g + 1 /\
    guesses g' = <[Z.to_nat (currGuess g) :=
                     Val (buildGuessFromWord (word g) (js_toUpperCase guess))]> (guesses g) /\
    length (guesses g') = length (guesses g) /\
    wordSize g' = wordSize g /\ maxGuesses g' = maxGuesses g /\ word g' = word g.
Proof.
  intros Hwf H1 H2 H3. pose proof (wf_length g Hwf) as Hlen.
  destruct Hwf as (_ & Hc & Hmax & _).
  rewrite appendGuess_run, (proj2 (Z.leb_gt _ _) H1), (proj2 (Z.eqb_eq _ _) H2), H3.
  eexists. split; [done|]. simpl. rewrite js_array_set_in_range by lia.
  split_and!; try done. apply length_insert.
Qed.

(** C1: every call of [appendGuess] on a well-formed object leaves a
    well-formed object, whether it returns or throws. *)
Theorem appendGuess_wf g s guess r g' s' :
  wf g -> appendGuess guess (g, s) = (r, (g', s')) -> wf g'.
Proof.
  intros Hwf. rewrite appendGuess_run.
  destruct (Z.leb_spec (maxGuesses g) (currGuess g)) as [Hex|Hlt]; [by intros [= _ <- _]|].
  destruct (Z.eqb_spec (js_length (js_toUpperCase guess)) (wordSize g)) as [Hl|Hl];
    [|by intros [= _ <- _]].
  destruct (isWord _ _) as [[|] s'']; intros [= _ <- _]; [|done].
  apply wf_store_incr; [done..|]. destruct Hwf as (Hsz & _).
  rewrite length_buildGuessFromWord. unfold js_length in Hl. lia.
Qed.
End session_props.

Section constructor_props.
Context {S : Type} `{!WordSource S}.

Lemma new_Wordle_run arg (s : S) :
  new_Wordle arg s =
  match js_new_array_fill (nullish arg 6) Null with
  | inl e => (inl e, s)
  | inr gs => (inr {| wordSize := 5; maxGuesses := nullish arg 6; guesses := gs;
                      word := (getWord s).1; currGuess := 0 |}, (getWord s).2)
  end.
Proof.
  unfold new_Wordle, call_getWord. js_unfold.
  destruct (js_new_array_fill _ _); [done|]. by destruct (getWord s).
Qed.

Lemma new_Wordle_wf arg (s : S) g s' :
  new_Wordle arg s = (inr g, s') -> wf g.
Proof.
  rewrite new_Wordle_run. unfold js_new_array_fill.
  destruct (Z.leb_spec 0 (nullish arg 6)), (Z.leb_spec (nullish arg 6) js_max_length);
    simpl; intros; simplify_eq/=; try lia.
  unfold wf; simpl. split_and!; [done|lia|lia|lia|].
  exists []. simpl. by rewrite Z.sub_0_r.
Qed.

(** C7: [new Wordle(n)] with [n ?? 6] a valid array length fetches the
    secret word from [getWord] (one call) and builds a well-formed object:
    [maxGuesses] is [n ?? 6], [guesses] is [n ?? 6] [null]s, [currGuess]
    is 0 and [wordSize] is 5. *)
Theorem new_Wordle_ok arg (s : S) :
  0 <= nullish arg 6 <= js_max_length ->
  exists g, new_Wordle arg s = (inr g, (getWord s).2) /\
    maxGuesses g = nullish arg 6 /\
    guesses g = replicate (Z.to_nat (nullish arg 6)) Null /\
    currGuess g = 0 /\ wordSize g = 5 /\ word g = (getWord s).1 /\ wf g.
Proof.
  intros Hn. destruct (new_Wordle arg s) as [r s'] eqn:Hrun.
  pose proof Hrun as Hrun'. rewrite new_Wordle_run, js_new_array_fill_ok in Hrun by done.
  simplify_eq. eexists. split; [done|]. split_and!; try done. by eapply new_Wordle_wf.
Qed.

(** C8: [new Wordle(n)] with [n] negative or above [2^32 - 1] throws the
    [RangeError] of [new Array(n)], before [getWord] is called: the word
    source is untouched. *)
Theorem new_Wordle_range arg (s : S) :
  nullish arg 6 < 0 \/ js_max_length < nullish arg 6 ->
  new_Wordle arg s = (inl RangeError, s).
Proof. intros Hn. by rewrite new_Wordle_run, js_new_array_fill_range. Qed.

(** C21: a session with no guess yet is not solved: [isSolved] reads
    [this.guesses[-1]], which is [undefined], and returns [false]. *)
Theorem isSolved_fresh g : currGuess g = 0 -> isSolved g = false.
Proof. intros H. unfold isSolved. by rewrite H. Qed.
End constructor_props.

(** ** Witnesses, on the test suite's mock (getWord returns "APPLE") *)

(** Witness of C7: [new Wordle()] has [maxGuesses] 6 and word "APPLE", and
    [getWord] was called once. *)
Lemma new_Wordle_ok_witness :
  exists g, new_Wordle None JestMock.init = (inr g, JestMock.mk [] [] 1) /\
    maxGuesses g = 6 /\ word g = "APPLE" /\ currGuess g = 0 /\ wf g.
Proof.
  destruct (new_Wordle_ok None JestMock.init) as (g & Hrun & Hmax & _ & Hc & _ & Hw & Hwf).
  { unfold js_max_length. simpl. lia. }
  exists g. split_and!; done.
Defined.

(** Witness of C8: [new Wordle(-1)] throws a [RangeError]. *)
Lemma new_Wordle_range_witness :
  new_Wordle (Some (-1)) JestMock.init = (inl RangeError, JestMock.init).
Proof. apply new_Wordle_range. simpl. lia. Defined.

(** Witness of C21: the fresh [new Wordle()] of the test suite. *)
Lemma isSolved_fresh_witness :
  isSolved (mkWordle 5 6 (replicate 6 Null) "APPLE" 0) = false.
Proof. by apply isSolved_fresh. Defined.

(** The object [new Wordle()] builds in the test suite. *)
Definition g_fresh : Wordle := mkWordle 5 6 (replicate 6 Null) "APPLE" 0.

Lemma g_fresh_wf : wf g_fresh.
Proof. unfold wf, js_max_length. simpl. split_and!; try lia. by exists []. Qed.

(** Witness of C3: the test "throws an error if no more guesses are
    allowed": [new Wordle(1)] after one guess. *)
Lemma appendGuess_exhausted_witness :
  let g1 := mkWordle 5 1 [Val (buildGuessFromWord "APPLE" "GUESS")] "APPLE" 1 in
  appendGuess "GUESS" (g1, JestMock.mk [] ["GUESS"] 1) =
  (inl err_no_more_guesses, (g1, JestMock.mk [] ["GUESS"] 1)).
Proof. intros g1. apply appendGuess_exhausted. simpl. lia. Defined.

(** Witness of C4: the test "throws an error if guess length is not 5". *)
Lemma appendGuess_bad_length_witness :
  appendGuess "GUES" (g_fresh, JestMock.mk [] [] 1) =
  (inl err_length, (g_fresh, JestMock.mk [] [] 1)).
Proof. apply appendGuess_bad_length; vm_compute; [reflexivity | discriminate]. Defined.

(** Witness of C5: the test "throws an error if the guess is not a word",
    after [mockIsWord.mockReturnValueOnce(false)]. *)
Lemma appendGuess_not_a_word_witness :
  appendGuess "GUESS" (g_fresh, JestMock.mk [false] [] 1) =
  (inl err_not_a_word, (g_fresh, JestMock.mk [] ["GUESS"] 1)).
Proof. apply appendGuess_not_a_word; vm_compute; reflexivity. Defined.

(** Witness of C2: the test "that it increments the current guess". *)
Lemma appendGuess_ok_witness :
  exists g', appendGuess "guess" (g_fresh, JestMock.mk [] [] 1) =
             (inr tt, (g', JestMock.mk [] ["GUESS"] 1)) /\ currGuess g' = 1.
Proof.
  destruct (appendGuess_ok g_fresh (JestMock.mk [] [] 1) (JestMock.mk [] ["GUESS"] 1) "guess")
    as (g' & Hrun & Hc & _).
  - exact g_fresh_wf.
  - simpl. lia.
  - vm_compute. reflexivity.
  - vm_compute. reflexivity.
  - exists g'. split; [exact Hrun | rewrite Hc; reflexivity].
Defined.

(** Witness of C1: the object after the test's [appendGuess('GUESS')]. *)
Lemma appendGuess_wf_witness :
  let '(r, (g', s')) := appendGuess "GUESS" (g_fresh, JestMock.mk [] [] 1) in wf g'.
Proof.
  destruct (appendGuess "GUESS" (g_fresh, JestMock.mk [] [] 1)) as [r [g' s']] eqn:E.
  exact (appendGuess_wf _ _ _ _ _ _ g_fresh_wf E).
Defined.

(** ** Guesses after a solve *)
Section after_solved.
Context {S : Type} `{!WordSource S}.

(** C18: [appendGuess] has no guard for a solved game: on a solved
    session with two or more guesses left, a valid word that is not the
    secret is accepted, and the game that [shouldEndGame] had ended is
    open again ([isSolved] is now false). *)
Theorem appendGuess_after_solved g s s' guess :
  wf g -> currGuess g + 1 < maxGuesses g -> String.length (word g) = 5%nat ->
  js_length (js_toUpperCase guess) = 5 -> js_toUpperCase guess ≠ word g ->
  isWord (js_toUpperCase guess) s = (true, s') ->
  exists g', appendGuess guess (g, s) = (inr tt, (g', s')) /\ shouldEndGame g' = false.
Proof.
  intros Hwf Hlt Hsec Hl Hne Hw. pose proof Hwf as (Hsz & Hc & Hmax & _).
  rewrite appendGuess_run, (proj2 (Z.leb_gt _ _)) by lia.
  rewrite Hsz, Hl, Z.eqb_refl, Hw. simpl. eexists. split; [done|].
  unfold shouldEndGame, isSolved. simpl.
  rewrite (proj2 (Z.leb_gt _ _)) by lia. rewrite orb_false_r.
  replace (currGuess g + 1 - 1) with (currGuess g) by lia.
  rewrite js_array_get_set_eq by lia.
  apply not_true_iff_false. rewrite buildGuessFromWord_all_correct; [done|].
  unfold js_length in Hl. lia.
Qed.
End after_solved.

(** The session after the test's [appendGuess('APPLE')]. *)
Definition g_apple : Wordle := incr_currGuess (store_guess (buildGuessFromWord "APPLE" "APPLE") g_fresh).

Lemma g_apple_wf : wf g_apple.
Proof. apply wf_store_incr; [exact g_fresh_wf | simpl; lia | reflexivity]. Qed.

(** Witness of C18: "APPLE" then "GUESS", as in the tests: the second
    guess is accepted and the ended game is open again. *)
Lemma appendGuess_after_solved_witness :
  exists g', appendGuess "GUESS" (g_apple, JestMock.mk [] ["APPLE"] 1) =
             (inr tt, (g', JestMock.mk [] ["APPLE"; "GUESS"] 1)) /\ shouldEndGame g' = false.
Proof.
  apply appendGuess_after_solved.
  - exact g_apple_wf.
  - simpl. lia.
  - reflexivity.
  - reflexivity.
  - vm_compute. discriminate.
  - vm_compute. reflexivity.
Defined.

(** ** A game with no guesses *)
Section no_guesses.
Context {S : Type} `{!WordSource S}.

(** C26: [new Wordle(0)] builds a game that has already ended: its
    [guesses] array is empty, [isSolved] reads [this.guesses[-1]], which is
    [undefined], and answers [false], [shouldEndGame] holds, and every
    [appendGuess] throws "No more guesses allowed" without calling the
    word source. *)
Theorem new_Wordle_zero (s : S) g s' :
  new_Wordle (Some 0) s = (inr g, s') ->
  guesses g = [] /\ isSolved g = false /\ shouldEndGame g = true /\
  forall guess (s'' : S), appendGuess guess (g, s'') = (inl err_no_more_guesses, (g, s'')).
Proof.
  rewrite new_Wordle_run. intros [= <- _]. split_and!; [done..|].
  intros guess s''. by rewrite appendGuess_run.
Qed.
End no_guesses.

(** Witness of C26: [new Wordle(0)] over the test suite's mock. *)
Lemma new_Wordle_zero_witness :
  guesses (mkWordle 5 0 [] "APPLE" 0) = [] /\ isSolved (mkWordle 5 0 [] "APPLE" 0) = false /\
  shouldEndGame (mkWordle 5 0 [] "APPLE" 0) = true /\
  forall guess (s'' : JestMock.state),
    appendGuess guess (mkWordle 5 0 [] "APPLE" 0, s'') =
    (inl err_no_more_guesses, (mkWordle 5 0 [] "APPLE" 0, s'')).
Proof. apply (new_Wordle_zero JestMock.init _ (JestMock.mk [] [] 1)). reflexivity. Defined.
