(* ===== verification/Constructor.v ===== *)
(** * The constructor over any number: [new Wordle(maxGuesses)] (src/src/wordle.js, lines 19-28)

    [Wordle.new_Wordle] takes [maxGuesses] as an integer.  JavaScript lets
    a caller pass any number: [this.maxGuesses = maxGuesses ?? 6] keeps it
    and [new Array(this.maxGuesses)] accepts it only when it is an integer
    in [0 .. 2^32 - 1], throwing a [RangeError] for a fraction, [NaN] or an
    infinity.  [new_Wordle_number] is the constructor over [js_number]s;
    it throws exactly when the number is not a valid length, builds the
    object [new_Wordle] builds for the integer the number equals otherwise,
    and gives the same object for numerically equal arguments. *)

From stdpp Require Import base list decidable strings.
From Stdlib Require Import ZArith QArith Morphisms.
From S2P Require Import Prelude JsRuntime JsNumber Letter WordSource Scoring Wordle.

Local Open Scope Z_scope.

Section number_constructor.
Context {S : Type} `{!WordSource S}.

(** [this.maxGuesses = maxGuesses ?? this.maxGuesses;
    this.guesses = new Array(this.maxGuesses).fill(null);
    this.word = getWord(); this.currGuess = 0;]: once the array constructor
    has accepted the number [this.maxGuesses], it is the integer [len]. *)
Definition new_Wordle_number (maxGuesses_arg : option js_number) : JS S Wordle :=
  let maxGuesses := nullish maxGuesses_arg (JFinite 6) in
  len ← js_lift (js_array_length maxGuesses);
  word ← call_getWord;
  mret {| wordSize := 5; maxGuesses := len; guesses := replicate (Z.to_nat len) Null;
          word := word; currGuess := 0 |}.

Lemma new_Wordle_number_run arg (s : S) :
  new_Wordle_number arg s =
  match js_array_length (nullish arg (JFinite 6)) with
  | inl e => (inl e, s)
  | inr len => (inr {| wordSize := 5; maxGuesses := len; guesses := replicate (Z.to_nat len) Null;
                       word := (getWord s).1; currGuess := 0 |}, (getWord s).2)
  end.
Proof.
  unfold new_Wordle_number, call_getWord. js_unfold.
  destruct (js_array_length _); [done|]. by destruct (getWord s).
Qed.

Lemma nullish_same_value a1 a2 d :
  option_Forall2 js_same_value a1 a2 -> js_same_value (nullish a1 d) (nullish a2 d).
Proof. destruct 1; simpl; [done|reflexivity]. Qed.

(** Numerically equal arguments ([6] and [12 # 2]) build the same object
    from the same source state. *)
#[export] Instance new_Wordle_number_proper :
  Proper (option_Forall2 js_same_value ==> eq ==> eq) new_Wordle_number.
Proof.
  intros a1 a2 Ha s ? <-. rewrite !new_Wordle_number_run.
  by rewrite (nullish_same_value a1 a2 (JFinite 6) Ha).
Qed.

(** C27: [new Wordle(n)] for any number [n] either builds the object of
    [new Wordle(z)] for the integer [z] that [n] equals, when [z] is a
    valid array length, or, when [n] is a fraction, [NaN], an infinity,
    negative or above [2^32 - 1], throws the [RangeError] of
    [new Array(n)] before [getWord] is called. *)
Theorem new_Wordle_number_cases arg (s : S) :
  (exists z, js_is_length (nullish arg (JFinite 6)) z /\
     new_Wordle_number arg s = new_Wordle (Some z) s) \/
  ((forall z, ~ js_is_length (nullish arg (JFinite 6)) z) /\
     new_Wordle_number arg s = (inl RangeError, s)).
Proof.
  rewrite new_Wordle_number_run.
  destruct (js_array_length _) as [e|z] eqn:Hl.
  - right. rewrite (js_array_length_err _ _ Hl). split; [|done].
    intros z Hz%js_array_length_inr. congruence.
  - left. exists z. pose proof Hl as Hz. apply js_array_length_inr in Hz.
    split; [done|]. rewrite new_Wordle_run. simpl nullish.
    rewrite js_new_array_fill_ok; [done|].
    destruct (nullish arg (JFinite 6)); by destruct Hz.
Qed.
End number_constructor.
