(* ===== verification/Game.v ===== *)
(** * Sessions over time: the abstract game, refinement and reachable states

    [Spec] is the game the spec describes (section 4.1): a secret, a limit
    and the list of accepted, upper-cased words.  [refines g a] relates a
    [Wordle] object to it: the [guesses] array is the scores of the played
    words followed by [null]s.  [appendGuess] simulates [Spec.submit] step
    for step, with the same thrown errors and the same calls to the word
    source, and [isSolved] and [shouldEndGame] compute [Spec.solved] and
    [Spec.ended].  [reachable] is the step relation of a program that
    builds a session and calls [appendGuess] on it while other code may use
    the shared word source; its states satisfy the invariant and bounds. *)

From stdpp Require Import base list decidable strings.
From Stdlib Require Import ZArith Ascii Inclusion Wf_nat.
From S2P Require Import Prelude JsRuntime Letter WordSource Scoring Wordle.

Local Open Scope Z_scope.

Module Spec.
Record state : Type := mk { secret : string; limit : Z; played : list string }.

Section with_source.
Context {S : Type} `{!WordSource S}.

(** Submitting a word: exhaustion, then length, then the dictionary. *)
Definition submit (guess : string) : JS (state * S) unit :=
  fun '(a, s) =>
    let w := js_toUpperCase guess in
    if limit a <=? Z.of_nat (length (played a)) then (inl err_no_more_guesses, (a, s))
    else if negb (String.length w =? 5)%nat then (inl err_length, (a, s))
    else let '(ok, s') := isWord w s in
         if ok then (inr tt, (mk (secret a) (limit a) (played a ++ [w]), s'))
         else (inl err_not_a_word, (a, s')).
End with_source.

Definition solved (a : state) : bool :=
  match last (played a) with
  | Some w => bool_decide (w = secret a)
  | None => false
  end.

Definition ended (a : state) : bool :=
  solved a || (limit a <=? Z.of_nat (length (played a))).
End Spec.

(** The object [g] implements the abstract game [a]. *)
Definition refines (g : Wordle) (a : Spec.state) : Prop :=
  wordSize g = 5 /\ word g = Spec.secret a /\ maxGuesses g = Spec.limit a /\
  Spec.limit a <= js_max_length /\
  currGuess g = Z.of_nat (length (Spec.played a)) /\
  Z.of_nat (length (Spec.played a)) <= Spec.limit a /\
  guesses g = ((fun w => Val (buildGuessFromWord (Spec.secret a) w)) <$> Spec.played a)
              ++ replicate (Z.to_nat (Spec.limit a) - length (Spec.played a)) Null /\
  Forall (fun w => String.length w = 5%nat /\ js_toUpperCase w = w) (Spec.played a).

Lemma refines_wf g a : refines g a -> wf g.
Proof.
  intros (Hsz & Hw & Hmax & Hlim & Hc & Hle & Hgs & Hall).
  split; [done|]. split; [lia|]. split; [lia|].
  exists ((buildGuessFromWord (Spec.secret a)) <$> Spec.played a). split_and!.
  - rewrite Hgs, <-list_fmap_compose. f_equal. f_equal. lia.
  - rewrite length_fmap. lia.
  - apply Forall_fmap, (Forall_impl _ _ _ Hall). intros w [Hl _]. simpl.
    by rewrite length_buildGuessFromWord.
Qed.

Lemma refines_store_incr g a w :
  refines g a -> Z.of_nat (length (Spec.played a)) < Spec.limit a ->
  String.length w = 5%nat -> js_toUpperCase w = w ->
  refines (incr_currGuess (store_guess (buildGuessFromWord (word g) w) g))
          (Spec.mk (Spec.secret a) (Spec.limit a) (Spec.played a ++ [w])).
Proof.
  intros (Hsz & Hw & Hmax & Hlim & Hc & Hle & Hgs & Hall) Hlt Hl Hu.
  unfold refines; simpl. rewrite length_app. simpl.
  split_and!; try done; try lia.
  - rewrite js_array_set_in_range; cycle 1.
    { rewrite Hgs, length_app, length_fmap, length_replicate. lia. }
    { lia. }
    rewrite Hgs, Hw, fmap_app, <-app_assoc. simpl.
    replace (Z.to_nat (Spec.limit a) - length (Spec.played a))%nat with
      (S (Z.to_nat (Spec.limit a) - (length (Spec.played a) + 1))) by lia.
    rewrite replicate_S.
    replace (Z.to_nat (currGuess g)) with (length (Spec.played a) + 0)%nat by lia.
    rewrite <-(length_fmap (fun w => Val (buildGuessFromWord (Spec.secret a) w)) (Spec.played a)).
    by rewrite insert_app_r.
  - apply Forall_app_2; [done|]. by constructor.
Qed.

Section refinement.
Context {S : Type} `{!WordSource S}.

(** One step of [appendGuess] against one step of [Spec.submit]. *)
Lemma appendGuess_submit_step g a (s : S) guess :
  refines g a ->
  let '(r, (g', s')) := appendGuess guess (g, s) in
  let '(r2, (a', s2)) := Spec.submit guess (a, s) in
  r = r2 /\ s' = s2 /\ refines g' a'.
Proof.
  intros Href. pose proof Href as (Hsz & Hw & Hmax & _ & Hc & _).
  rewrite appendGuess_run. unfold Spec.submit.
  rewrite Hmax, Hc, Hsz. unfold js_length.
  destruct (Z.leb_spec (Spec.limit a) (Z.of_nat (length (Spec.played a)))); [done|].
  destruct (Nat.eqb_spec (String.length (js_toUpperCase guess)) 5) as [Hl|Hl];
    [|by rewrite (proj2 (Z.eqb_neq _ _)) by lia].
  rewrite (proj2 (Z.eqb_eq _ _)) by lia. simpl.
  destruct (isWord _ _) as [[|] s'']; [|done].
  split_and!; try done. apply refines_store_incr; try done.
  apply js_toUpperCase_idem.
Qed.

Lemma appendGuess_refines_step g a (s : S) guess r g' s' :
  refines g a -> appendGuess guess (g, s) = (r, (g', s')) ->
  exists a', Spec.submit guess (a, s) = (r, (a', s')) /\ refines g' a'.
Proof.
  intros Href Hrun. pose proof (appendGuess_submit_step g a s guess Href) as Hstep.
  rewrite Hrun in Hstep. destruct (Spec.submit guess (a, s)) as [r2 [a' s2]].
  destruct Hstep as (-> & -> & Ha'). eauto.
Qed.

(** C9: [appendGuess] implements [Spec.submit]: from related states,
    both throw the same error or both return, they leave the word source
    in the same state, and the new object implements the new abstract
    game (one more played word exactly when the call returned). *)
Theorem appendGuess_refines g a (s : S) guess :
  refines g a ->
  exists a', Spec.submit guess (a, s) = ((appendGuess guess (g, s)).1, (a', (appendGuess guess (g, s)).2.2)) /\
    refines (appendGuess guess (g, s)).2.1 a'.
Proof.
  intros Href. destruct (appendGuess guess (g, s)) as [r [g' s']] eqn:Hrun.
  by eapply appendGuess_refines_step.
Qed.

(** On an object implementing a game whose secret has five letters,
    [isSolved] is [Spec.solved] and [shouldEndGame] is [Spec.ended]. *)
Lemma observers_refine g a :
  refines g a -> String.length (Spec.secret a) = 5%nat ->
  isSolved g = Spec.solved a /\ shouldEndGame g = Spec.ended a.
Proof.
  destruct a as [secret limit played]. intros Href Hsec.
  assert (isSolved g = Spec.solved (Spec.mk secret limit played)) as Hsolved.
  { destruct Href as (Hsz & Hw & Hmax & Hlim & Hc & Hle & Hgs & Hall); simpl in *.
    unfold isSolved, Spec.solved. simpl. rewrite Hc.
    destruct (last played) as [w|] eqn:Hlast.
    - apply last_Some in Hlast as [init ->].
      rewrite Forall_app, Forall_singleton in Hall. destruct Hall as (_ & Hl & _).
      rewrite js_array_get_in_range by (rewrite length_app; simpl; lia).
      rewrite Hgs, fmap_app, <-app_assoc, lookup_app_r; rewrite length_fmap, length_app;
        [|simpl; lia].
      replace (Z.to_nat (Z.of_nat (length init + length [w]) - 1) - length init)%nat
        with 0%nat by (simpl; lia). simpl.
      apply bool_decide_of_iff, buildGuessFromWord_all_correct. lia.
    - apply last_None in Hlast as ->. done. }
  split; [done|]. unfold shouldEndGame, Spec.ended. rewrite Hsolved. f_equal.
  destruct Href as (_ & _ & -> & _ & -> & _). done.
Qed.
End refinement.

(** ** Reachable sessions *)
Section reachability.
Context {S : Type} `{!WordSource S}.

(** A session is built by the constructor; then [appendGuess] is called
    on it any number of times (returning or throwing), while other code
    may call the shared word source ([reachable_source]). *)
Inductive reachable : Wordle * S -> Prop :=
  | reachable_new arg s g s' :
      new_Wordle arg s = (inr g, s') -> reachable (g, s')
  | reachable_append g s guess r g' s' :
      reachable (g, s) -> appendGuess guess (g, s) = (r, (g', s')) -> reachable (g', s')
  | reachable_source g s s' :
      reachable (g, s) -> reachable (g, s').

Lemma new_Wordle_refines arg (s : S) g s' :
  new_Wordle arg s = (inr g, s') -> refines g (Spec.mk (word g) (maxGuesses g) []).
Proof.
  rewrite new_Wordle_run. unfold js_new_array_fill.
  destruct (Z.leb_spec 0 (nullish arg 6)), (Z.leb_spec (nullish arg 6) js_max_length);
    simpl; intros; simplify_eq/=; try lia.
  unfold refines; simpl. rewrite Nat.sub_0_r. split_and!; (done || lia).
Qed.

Lemma reachable_refines st :
  reachable st -> exists a, refines st.1 a /\ Spec.secret a = word st.1.
Proof.
  induction 1 as [arg s g s' Hnew|g s guess r g' s' _ (a & Ha & Hsec) Hrun|g s s' _ IH];
    simpl in *.
  - exists (Spec.mk (word g) (maxGuesses g) []). split; [|done]. by eapply new_Wordle_refines.
  - destruct (appendGuess_refines_step _ _ _ _ _ _ _ Ha Hrun) as (a' & _ & Ha').
    exists a'. split; [done|]. destruct Ha' as (_ & -> & _). done.
  - exact IH.
Qed.

(** C11: in every reachable state the object is well formed, its
    [guesses] array has exactly [maxGuesses] elements (spec, section 8),
    and [0 <= currGuess <= maxGuesses <= 2^32 - 1]: the number
    [currGuess + 1] computed by [appendGuess] stays far below [2^53], so
    the double arithmetic of the code is exact. *)
Theorem reachable_wf_bounds g s :
  reachable (g, s) ->
  wf g /\ length (guesses g) = Z.to_nat (maxGuesses g) /\
  0 <= currGuess g <= maxGuesses g /\ maxGuesses g <= js_max_length /\
  currGuess g + 1 < 2 ^ 53.
Proof.
  intros Hr. destruct (reachable_refines _ Hr) as (a & Ha & _). simpl in Ha.
  pose proof (refines_wf _ _ Ha) as Hwf.
  split; [done|]. split; [by apply wf_length|].
  destruct Hwf as (_ & Hc & Hmax & _). unfold js_max_length in *. lia.
Qed.

Lemma appendGuess_word g (s : S) guess r g' s' :
  appendGuess guess (g, s) = (r, (g', s')) -> word g' = word g.
Proof.
  rewrite appendGuess_run.
  destruct (_ <=? _); [by intros [= _ <- _]|].
  destruct (negb _); [by intros [= _ <- _]|].
  by destruct (isWord _ _) as [[|] ?]; intros [= _ <- _].
Qed.

(** The secret of a reachable session is a word the source gave. *)
Lemma reachable_word st : reachable st -> exists s0, word st.1 = (getWord s0).1.
Proof.
  induction 1 as [arg s g s' Hnew|g s guess r g' s' _ IH Hrun|g s s' _ IH]; simpl in *.
  - rewrite new_Wordle_run in Hnew. exists s.
    destruct (js_new_array_fill _ _); simplify_eq/=. done.
  - by rewrite (appendGuess_word _ _ _ _ _ _ Hrun).
  - exact IH.
Qed.

(** C10: on a reachable session over a word source that keeps its
    promise (five-letter upper-case secrets), [isSolved] and
    [shouldEndGame] are the abstract game's [Spec.solved] (the last
    accepted word, upper-cased, is the secret) and [Spec.ended] (solved,
    or every guess used). *)
Theorem reachable_observers `{!WordSourceLaws S} g s :
  reachable (g, s) ->
  exists a, refines g a /\ Spec.secret a = word g /\
    isSolved g = Spec.solved a /\ shouldEndGame g = Spec.ended a.
Proof.
  intros Hr. destruct (reachable_refines _ Hr) as (a & Ha & Hsec).
  destruct (reachable_word _ Hr) as [s0 Hw]. simpl in *.
  exists a. split_and!; try done; apply observers_refine; try done;
    rewrite Hsec, Hw; apply getWord_length.
Qed.
End reachability.

(** ** Playing a sequence of guesses *)
Section play.
Context {S : Type} `{!WordSource S}.

(** A client that calls [appendGuess] on each word in turn and stops at
    the first throw (the chained [w.appendGuess(a).appendGuess(b)...]). *)
Fixpoint play (ws : list string) : JS (Wordle * S) unit :=
  match ws with
  | [] => mret tt
  | w :: ws' => appendGuess w ≫= fun _ => play ws'
  end.

Lemma appendGuess_inr g (s : S) guess u g' s' :
  appendGuess guess (g, s) = (inr u, (g', s')) ->
  currGuess g < maxGuesses g /\ currGuess g' = currGuess g + 1 /\
  maxGuesses g' = maxGuesses g.
Proof.
  rewrite appendGuess_run.
  destruct (Z.leb_spec (maxGuesses g) (currGuess g)); [done|].
  destruct (negb _); [done|].
  by destruct (isWord _ _) as [[|] ?]; intros [= _ <- _].
Qed.

(** C12: the game accepts no more guesses than it has left: a run of
    accepted guesses moves [currGuess] by its length, which is at most
    [maxGuesses - currGuess], and a run that uses every guess left ends
    the game ([shouldEndGame] holds). *)
Theorem play_bounded g s ws g' s' :
  wf g -> play ws (g, s) = (inr tt, (g', s')) ->
  currGuess g' = currGuess g + Z.of_nat (length ws) /\
  currGuess g + Z.of_nat (length ws) <= maxGuesses g /\
  (currGuess g + Z.of_nat (length ws) = maxGuesses g -> shouldEndGame g' = true).
Proof.
  intros (_ & [_ Hcm] & _). revert g s Hcm.
  induction ws as [|w ws IH]; intros g s Hcm Hrun; simpl in Hrun; js_unfold.
  - simplify_eq/=. split_and!; [lia|lia|]. intros Heq. unfold shouldEndGame.
    rewrite (proj2 (Z.leb_le _ _)) by lia. apply orb_true_r.
  - destruct (appendGuess w (g, s)) as [[e|u] [g1 s1]] eqn:Hw; [done|].
    destruct (appendGuess_inr _ _ _ _ _ _ Hw) as (Hlt & Hc & Hm).
    destruct (IH g1 s1 ltac:(lia) Hrun) as (Hc' & Hle & Hend). simpl length.
    split_and!; [lia|lia|]. intros Heq. apply Hend. lia.
Qed.

End play.

(** ** Calls to the word source, observed through the test suite's mock *)

(** C19: each [appendGuess] call consults [isWord] exactly once, with the
    upper-cased word, when guesses are left and the length is right, and
    not at all otherwise; it never calls [getWord]. *)
Theorem appendGuess_isWord_calls g (m : JestMock.state) guess r g' m' :
  appendGuess guess (g, m) = (r, (g', m')) ->
  JestMock.isWord_calls m' =
    JestMock.isWord_calls m ++
    (if (currGuess g <? maxGuesses g) && (js_length (js_toUpperCase guess) =? wordSize g)
     then [js_toUpperCase guess] else []) /\
  JestMock.getWord_calls m' = JestMock.getWord_calls m.
Proof.
  rewrite appendGuess_run.
  destruct (Z.leb_spec (maxGuesses g) (currGuess g)) as [H|H].
  { rewrite (proj2 (Z.ltb_ge _ _) H). intros [= _ _ <-]. by rewrite app_nil_r. }
  rewrite (proj2 (Z.ltb_lt _ _) H). cbv beta iota.
  destruct (_ =? _); cbv beta iota; [|intros [= _ _ <-]; by rewrite app_nil_r].
  pose proof (JestMock.isWord_log (js_toUpperCase guess) m) as Hlog.
  pose proof (JestMock.isWord_getWord_calls (js_toUpperCase guess) m) as Hget.
  destruct (isWord (js_toUpperCase guess) m) as [[|] m''] eqn:Hw; simpl in Hlog, Hget;
    intros [= _ _ <-]; done.
Qed.

(** C20: the constructor calls [getWord] exactly once when [maxGuesses ?? 6]
    is a valid array length and not at all when it throws, and never calls
    [isWord]. *)
Theorem new_Wordle_getWord_calls arg (m : JestMock.state) r m' :
  new_Wordle arg m = (r, m') ->
  JestMock.getWord_calls m' =
    Nat.add (JestMock.getWord_calls m)
      (if (0 <=? nullish arg 6) && (nullish arg 6 <=? js_max_length) then 1%nat else 0%nat) /\
  JestMock.isWord_calls m' = JestMock.isWord_calls m.
Proof.
  rewrite new_Wordle_run. unfold js_new_array_fill.
  destruct (_ && _); intros [= _ <-]; simpl; split; lia || done.
Qed.

(** ** Witnesses, on the test suite's scenarios *)

Lemma reachable_fresh : reachable (g_fresh, JestMock.mk [] [] 1).
Proof. apply (reachable_new None JestMock.init). vm_compute. reflexivity. Qed.

Lemma refines_fresh : refines g_fresh (Spec.mk "APPLE" 6 []).
Proof. unfold refines, js_max_length. simpl. split_and!; try lia; done. Qed.

(** Witness of C9: the test's first guess "GUESS". *)
Lemma appendGuess_refines_witness :
  exists a', Spec.submit "GUESS" (Spec.mk "APPLE" 6 [], JestMock.mk [] [] 1) =
    ((appendGuess "GUESS" (g_fresh, JestMock.mk [] [] 1)).1,
     (a', (appendGuess "GUESS" (g_fresh, JestMock.mk [] [] 1)).2.2)) /\
    refines (appendGuess "GUESS" (g_fresh, JestMock.mk [] [] 1)).2.1 a'.
Proof. apply appendGuess_refines. exact refines_fresh. Defined.

(** Witness of C11: [new Wordle()] of the test suite. *)
Lemma reachable_wf_bounds_witness :
  wf g_fresh /\ length (guesses g_fresh) = Z.to_nat (maxGuesses g_fresh).
Proof.
  destruct (reachable_wf_bounds g_fresh _ reachable_fresh) as (Hwf & Hlen & _).
  split; [exact Hwf | exact Hlen].
Defined.

(** Witness of C10: the test "returns true if the latest guess is correct":
    after [appendGuess('APPLE')] the session is solved and ends. *)
Lemma reachable_observers_witness :
  exists a, refines g_apple a /\ Spec.secret a = word g_apple /\
    isSolved g_apple = Spec.solved a /\ shouldEndGame g_apple = Spec.ended a.
Proof.
  apply reachable_observers with (s := JestMock.mk [] ["APPLE"] 1).
  apply (reachable_append g_fresh (JestMock.mk [] [] 1) "APPLE" (inr tt)).
  - exact reachable_fresh.
  - vm_compute. reflexivity.
Defined.

(** Witness of C12: the test "returns true if there are no more guesses
    left": [new Wordle(1)] then [appendGuess('GUESS')]. *)
Lemma play_bounded_witness :
  shouldEndGame (play ["GUESS"] (mkWordle 5 1 [Null] "APPLE" 0, JestMock.mk [] [] 1)).2.1 = true.
Proof.
  destruct (play_bounded (mkWordle 5 1 [Null] "APPLE" 0) (JestMock.mk [] [] 1) ["GUESS"]
              (play ["GUESS"] (mkWordle 5 1 [Null] "APPLE" 0, JestMock.mk [] [] 1)).2.1
              (play ["GUESS"] (mkWordle 5 1 [Null] "APPLE" 0, JestMock.mk [] [] 1)).2.2)
    as (_ & _ & Hend).
  - unfold wf, js_max_length. simpl. split_and!; try lia. by exists [].
  - vm_compute. reflexivity.
  - apply Hend. reflexivity.
Defined.

(** Witness of C19: the test's [appendGuess('GUES')] never reaches [isWord]. *)
Lemma appendGuess_isWord_calls_witness :
  JestMock.isWord_calls (appendGuess "GUES" (g_fresh, JestMock.mk [] [] 1)).2.2 = [].
Proof.
  destruct (appendGuess_isWord_calls g_fresh (JestMock.mk [] [] 1) "GUES"
              (appendGuess "GUES" (g_fresh, JestMock.mk [] [] 1)).1
              (appendGuess "GUES" (g_fresh, JestMock.mk [] [] 1)).2.1
              (appendGuess "GUES" (g_fresh, JestMock.mk [] [] 1)).2.2) as [-> _].
  - vm_compute. reflexivity.
  - vm_compute. reflexivity.
Defined.

(** Witness of C20: [new Wordle()] calls [getWord] once. *)
Lemma new_Wordle_getWord_calls_witness :
  JestMock.getWord_calls (new_Wordle None JestMock.init).2 = 1%nat.
Proof.
  destruct (new_Wordle_getWord_calls None JestMock.init (new_Wordle None JestMock.init).1
              (new_Wordle None JestMock.init).2) as [-> _].
  - vm_compute. reflexivity.
  - vm_compute. reflexivity.
Defined.

(** ** The guesses array over time, termination and liveness *)
Section over_time.
Context {S : Type} `{!WordSource S}.

(** One accepted guess: a call of [appendGuess] that returns. *)
Definition accepts (st st' : Wordle * S) : Prop :=
  exists guess, appendGuess guess st = (inr tt, st').

(** The number of guesses left, as a measure. *)
Definition guesses_left (st : Wordle * S) : nat :=
  Z.to_nat (maxGuesses st.1 - currGuess st.1).

(** C23: every element of the [guesses] array of a reachable session is a
    [null] at and after index [currGuess] and, before it, an array of
    [wordSize] letter objects whose letters are upper case: the array has
    no holes and [appendGuess] stores only normalised words. *)
Theorem reachable_guesses_typed g s :
  reachable (g, s) ->
  forall i, (i < length (guesses g))%nat ->
    (exists gs, guesses g !! i = Some (Val gs) /\ Z.of_nat i < currGuess g /\
       length gs = 5%nat /\ Forall (fun l => is_lower (letter l) = false) gs) \/
    (guesses g !! i = Some Null /\ currGuess g <= Z.of_nat i).
Proof.
  intros Hr i Hi. destruct (reachable_refines _ Hr) as (a & Ha & _). simpl in Ha.
  destruct Ha as (_ & _ & _ & _ & Hc & Hle & Hgs & Hall). rewrite Hgs in Hi |- *.
  rewrite length_app, length_fmap, length_replicate in Hi.
  destruct (decide (i < length (Spec.played a))%nat) as [Hlt|Hge].
  - left. rewrite lookup_app_l by (rewrite length_fmap; lia).
    rewrite list_lookup_fmap. destruct (Spec.played a !! i) as [w|] eqn:Hw;
      [|apply lookup_ge_None in Hw; lia].
    eexists. split_and!; [done|lia| |].
    + eapply Forall_lookup_1 in Hall as [Hl _]; [|done].
      by rewrite length_buildGuessFromWord.
    + eapply Forall_lookup_1 in Hall as [_ Hu]; [|done].
      apply (Forall_fmap letter (fun c => is_lower c = false)). rewrite buildGuessFromWord_letters, <-Hu, js_split_toUpperCase.
      apply Forall_fmap, Forall_forall. intros c _. apply ascii_toUpper_not_lower.
  - right. rewrite lookup_app_r by (rewrite length_fmap; lia). rewrite length_fmap.
    rewrite lookup_replicate_2 by lia. split; [done|lia].
Qed.

(** C24: no session accepts guesses for ever: the relation "accepts one
    more guess" is well founded, whatever the object and the source. *)
Theorem accepts_well_founded : well_founded (fun st' st => accepts st st').
Proof.
  apply (wf_incl _ _ (ltof _ guesses_left)); [|apply well_founded_ltof].
  intros [g' s'] [g s] [guess Hrun]. unfold ltof, guesses_left. simpl.
  destruct (appendGuess_inr _ _ _ _ _ _ Hrun) as (Hlt & -> & ->). lia.
Qed.

(** Submitting the secret of a reachable session that has not ended,
    when it is already normalised and the dictionary accepts it, solves
    and ends the game. *)
Lemma appendGuess_secret_ends g s s' :
  reachable (g, s) -> shouldEndGame g = false ->
  js_toUpperCase (word g) = word g -> String.length (word g) = 5%nat ->
  isWord (word g) s = (true, s') ->
  exists g', appendGuess (word g) (g, s) = (inr tt, (g', s')) /\
    isSolved g' = true /\ shouldEndGame g' = true.
Proof.
  intros Hr Hend Hu Hl Hw.
  pose proof (reachable_refines _ Hr) as (a & Ha & _). simpl in Ha. apply refines_wf in Ha.
  destruct Ha as (Hsz & Hc & Hmax & _).
  unfold shouldEndGame in Hend. apply orb_false_iff in Hend as [_ Hlt%Z.leb_gt].
  rewrite appendGuess_run, (proj2 (Z.leb_gt _ _)) by lia. rewrite Hu, Hsz.
  unfold js_length. rewrite Hl, Z.eqb_refl, Hw. simpl. eexists. split; [done|].
  assert (isSolved (incr_currGuess (store_guess (buildGuessFromWord (word g) (word g)) g)) = true)
    as Hs.
  { unfold isSolved. simpl. replace (currGuess g + 1 - 1) with (currGuess g) by lia.
    rewrite js_array_get_set_eq by lia. by apply buildGuessFromWord_all_correct. }
  split; [done|]. unfold shouldEndGame. by rewrite Hs.
Qed.

(** C25: a reachable session over a lawful source that has not ended can
    always be ended: if the dictionary accepts the secret word, submitting
    it is accepted and leaves a solved, ended game. *)
Theorem reachable_can_end `{!WordSourceLaws S} g s s' :
  reachable (g, s) -> shouldEndGame g = false ->
  isWord (word g) s = (true, s') ->
  exists g', appendGuess (word g) (g, s) = (inr tt, (g', s')) /\
    isSolved g' = true /\ shouldEndGame g' = true.
Proof.
  intros Hr Hend Hw. destruct (reachable_word _ Hr) as [s0 Hs0]. simpl in Hs0.
  apply appendGuess_secret_ends; [done|done| | |done].
  - rewrite Hs0. apply getWord_upper.
  - rewrite Hs0. apply getWord_length.
Qed.
End over_time.

(** Witness of C23: the session after the test's [appendGuess('APPLE')]. *)
Lemma reachable_guesses_typed_witness :
  exists gs, guesses g_apple !! 0%nat = Some (Val gs) /\ 0 < currGuess g_apple /\
    length gs = 5%nat /\ Forall (fun l => is_lower (letter l) = false) gs.
Proof.
  destruct (reachable_guesses_typed g_apple (JestMock.mk [] ["APPLE"] 1)
              (reachable_append g_fresh (JestMock.mk [] [] 1) "APPLE" (inr tt) g_apple _
                 reachable_fresh eq_refl) 0 ltac:(vm_compute; lia))
    as [H|[H _]]; [exact H | discriminate H].
Defined.

(** Witness of C25: [new Wordle()] of the test suite, ended by "APPLE". *)
Lemma reachable_can_end_witness :
  exists g', appendGuess "APPLE" (g_fresh, JestMock.mk [] [] 1) =
             (inr tt, (g', JestMock.mk [] ["APPLE"] 1)) /\
    isSolved g' = true /\ shouldEndGame g' = true.
Proof.
  apply (reachable_can_end g_fresh (JestMock.mk [] [] 1)).
  - exact reachable_fresh.
  - reflexivity.
  - reflexivity.
Defined.
