(* ===== verification/Trace.v ===== *)
(** * Traces of a session: what a caller observes over a sequence of calls

    A caller of the game (a user interface, which the repository does not
    have) submits words one after the other, catches what [appendGuess]
    throws and asks [isSolved] and [shouldEndGame] after each call.  The
    trace of a run is the list of these observations.  The theorem of this
    file lifts the one-step refinement of [Game] to whole runs: the trace
    of the object is the trace of the abstract game [Spec], word for word,
    with the same calls to the word source. *)

From stdpp Require Import base list decidable strings.
From Stdlib Require Import ZArith Ascii.
From S2P Require Import Prelude JsRuntime Letter WordSource Scoring Wordle Game.

Local Open Scope Z_scope.

(** One observation: the outcome of the call, then [isSolved()] and
    [shouldEndGame()]. *)
Abbreviation observation := ((Exn + unit) * bool * bool)%type.

Section traces.
Context {S : Type} `{!WordSource S}.

Fixpoint session_trace (ws : list string) : JS (Wordle * S) (list observation) :=
  match ws with
  | [] => mret []
  | w :: ws' =>
      r ← js_try (appendGuess w); self ← this;
      rs ← session_trace ws'; mret ((r, isSolved self, shouldEndGame self) :: rs)
  end.

Fixpoint spec_trace (ws : list string) : JS (Spec.state * S) (list observation) :=
  match ws with
  | [] => mret []
  | w :: ws' =>
      r ← js_try (Spec.submit w); a ← (fun st => (inr st.1, st));
      rs ← spec_trace ws'; mret ((r, Spec.solved a, Spec.ended a) :: rs)
  end.

Lemma submit_secret guess a (s : S) :
  Spec.secret (Spec.submit guess (a, s)).2.1 = Spec.secret a.
Proof.
  unfold Spec.submit. destruct (_ <=? _); [done|]. destruct (negb _); [done|].
  by destruct (isWord _ _) as [[|] ?].
Qed.

(** C28: from an object that implements the abstract game, any sequence of
    submitted words gives the same trace of observations (outcome,
    [isSolved], [shouldEndGame]) as the abstract game, leaves the word
    source in the same state, and ends in an object that implements the
    final abstract game. *)
Theorem session_trace_refines g a (s : S) ws :
  refines g a -> String.length (Spec.secret a) = 5%nat ->
  (session_trace ws (g, s)).1 = (spec_trace ws (a, s)).1 /\
  (session_trace ws (g, s)).2.2 = (spec_trace ws (a, s)).2.2 /\
  refines (session_trace ws (g, s)).2.1 (spec_trace ws (a, s)).2.1.
Proof.
  revert g a s. induction ws as [|w ws IH]; intros g a s Href Hsec; [done|].
  simpl. js_unfold. cbv [this].
  pose proof (appendGuess_submit_step g a s w Href) as Hstep.
  pose proof (submit_secret w a s) as Hsec'.
  destruct (appendGuess w (g, s)) as [r [g' s']], (Spec.submit w (a, s)) as [r2 [a' s2]].
  destruct Hstep as (<- & <- & Href'). simpl in *.
  destruct (observers_refine g' a' Href') as [-> ->]; [congruence|].
  destruct (IH g' a' s' Href' ltac:(congruence)) as (Hr & Hs & Ha).
  destruct (session_trace ws (g', s')) as [[e|rs] [g'' s'']],
    (spec_trace ws (a', s')) as [[e2|rs2] [a'' s2'']]; simpl in *; subst.
  all: by simplify_eq/=.
Qed.
End traces.

(** Witness of C28: the words "GUESS", "GUES" and "APPLE" on the test
    suite's fresh session. *)
Lemma session_trace_refines_witness :
  (session_trace ["GUESS"; "GUES"; "APPLE"] (g_fresh, JestMock.mk [] [] 1)).1 =
  (spec_trace ["GUESS"; "GUES"; "APPLE"] (Spec.mk "APPLE" 6 [], JestMock.mk [] [] 1)).1 /\
  (session_trace ["GUESS"; "GUES"; "APPLE"] (g_fresh, JestMock.mk [] [] 1)).2.2 =
  (spec_trace ["GUESS"; "GUES"; "APPLE"] (Spec.mk "APPLE" 6 [], JestMock.mk [] [] 1)).2.2 /\
  refines (session_trace ["GUESS"; "GUES"; "APPLE"] (g_fresh, JestMock.mk [] [] 1)).2.1
          (spec_trace ["GUESS"; "GUES"; "APPLE"] (Spec.mk "APPLE" 6 [], JestMock.mk [] [] 1)).2.1.
Proof. apply session_trace_refines; [exact refines_fresh | reflexivity]. Defined.
