(* ===== verification/Dictionary.v ===== *)
(** * A dictionary word source: src/words.js as the spec describes it

    src/words.js is not among the sources; the spec (sections 1 and 6)
    describes it as a word list with a random pick ([getWord], called once
    per session) and a membership test ([isWord]).  The list is a module
    constant, so the state of the source is indexed by it; the state holds
    what changes: the draws of the random generator still to come and the
    number of draws made.  A list is a valid dictionary when it is not
    empty and holds only five-letter upper-case words; such a dictionary
    satisfies [WordSourceLaws], and the theorems of [Game] then hold with
    no hypothesis on what the dictionary answers. *)

From stdpp Require Import base list decidable strings.
From Stdlib Require Import ZArith Ascii.
From S2P Require Import Prelude JsRuntime Letter WordSource Scoring Wordle Game.

Local Open Scope Z_scope.

Module Dictionary.

(** A word the game can use: five code units, already upper case. *)
Definition valid_word (w : string) : bool :=
  bool_decide (String.length w = 5%nat) && bool_decide (js_toUpperCase w = w).

(** A valid dictionary, as a class over the word list and as a test. *)
Class ValidDictionary (words : list string) : Prop := {
  dict_nonempty : words <> [];
  dict_valid : Forall (fun w => valid_word w = true) words;
}.

Definition valid_dictionary (words : list string) : bool :=
  bool_decide (words <> []) && forallb valid_word words.

(** The state: [draw n] is the index that the [n]-th [Math.random] draw
    selects, [drawn] the number of draws made. *)
Record state (words : list string) : Type := mk {
  draw : nat -> nat;
  drawn : nat;
}.
Arguments mk {words} draw drawn.
Arguments draw {words} _ _.
Arguments drawn {words} _.

(** [words[Math.floor(Math.random() * words.length)]]. *)
Definition pick {words} (s : state words) : string * state words :=
  (default EmptyString (words !! (draw s (drawn s) mod length words)%nat),
   mk (draw s) (S (drawn s))).

#[global] Instance source words : WordSource (state words) := {
  getWord := pick;
  isWord w s := (bool_decide (w ∈ words), s);
}.

(** ** Lemmas *)

Lemma valid_dictionary_spec words :
  valid_dictionary words = true -> ValidDictionary words.
Proof.
  unfold valid_dictionary. rewrite andb_true_iff, bool_decide_eq_true, forallb_forall.
  intros [Hne Hall]. split; [done|]. apply Forall_forall. intros w Hw.
  by apply Hall, list_elem_of_In.
Qed.

Lemma pick_elem words (s : state words) : words <> [] -> (pick s).1 ∈ words.
Proof.
  intros Hne. unfold pick. simpl.
  destruct (words !! _) as [w|] eqn:Hw.
  - by eapply list_elem_of_lookup_2.
  - apply lookup_ge_None in Hw. destruct words; [done|].
    pose proof (Nat.mod_upper_bound (draw s (drawn s)) (length (s0 :: words)))
      as Hlt. simpl in *. lia.
Qed.

Section valid.
Context (words : list string) `{!ValidDictionary words}.

Lemma getWord_valid (s : state words) : valid_word (getWord s).1 = true.
Proof.
  pose proof (dict_valid (words:=words)) as Hall. rewrite Forall_forall in Hall.
  apply Hall, (pick_elem _ s), dict_nonempty.
Qed.

#[global] Instance laws : WordSourceLaws (state words).
Proof.
  split; intros s; pose proof (getWord_valid s) as Hv;
    apply andb_true_iff in Hv as [Hl Hu]; by apply bool_decide_eq_true in Hl, Hu.
Qed.
End valid.

(** The secret of a reachable session over a non-empty dictionary is one
    of its words. *)
Lemma reachable_secret_elem words g (s : state words) :
  words <> [] -> reachable (g, s) -> word g ∈ words.
Proof.
  intros Hne Hr. destruct (reachable_word _ Hr) as [s0 Hs0].
  change (word g = (getWord s0).1) in Hs0.
  rewrite Hs0. by apply pick_elem.
Qed.

(** C14: over the dictionary, [appendGuess] never changes the source's
    state, and it returns exactly when a guess is left, the upper-cased
    word has [wordSize] letters and it is a word of the dictionary. *)
Theorem appendGuess_dictionary words g (s : state words) guess r g' s' :
  appendGuess guess (g, s) = (r, (g', s')) ->
  s' = s /\
  (r = inr tt <-> currGuess g < maxGuesses g /\
                  js_length (js_toUpperCase guess) = wordSize g /\
                  js_toUpperCase guess ∈ words).
Proof.
  rewrite appendGuess_run.
  destruct (Z.leb_spec (maxGuesses g) (currGuess g)).
  { intros [= <- _ <-]. split; [done|]. split; [discriminate|lia]. }
  destruct (Z.eqb_spec (js_length (js_toUpperCase guess)) (wordSize g)); simpl.
  2:{ intros [= <- _ <-]. split; [done|]. split; [discriminate|tauto]. }
  case_bool_decide; intros [= <- _ <-]; split; try done; split; try done; tauto.
Qed.

(** C15: over a valid dictionary, every reachable session that has not
    ended can be ended by submitting its secret: the dictionary accepts
    it, the game is solved and ends, and the source is left as it was. *)
Theorem dictionary_can_end words `{!ValidDictionary words} g (s : state words) :
  reachable (g, s) -> shouldEndGame g = false ->
  exists g', appendGuess (word g) (g, s) = (inr tt, (g', s)) /\
    isSolved g' = true /\ shouldEndGame g' = true.
Proof.
  intros Hr Hend. destruct (reachable_word _ Hr) as [s0 Hs0].
  change (word g = (getWord s0).1) in Hs0.
  apply appendGuess_secret_ends; [done|done| | |].
  - rewrite Hs0. apply getWord_upper.
  - rewrite Hs0. apply getWord_length.
  - simpl. rewrite bool_decide_eq_true_2; [done|].
    apply (reachable_secret_elem _ _ s); [apply dict_nonempty|done].
Qed.

End Dictionary.

(** ** A concrete dictionary *)

Definition three_words : list string := ["APPLE"; "GUESS"; "PLANE"].

Lemma three_words_valid : Dictionary.ValidDictionary three_words.
Proof. apply Dictionary.valid_dictionary_spec. vm_compute. reflexivity. Qed.
#[local] Existing Instance three_words_valid.

(** The random generator always draws index 0. *)
Definition draws0 : Dictionary.state three_words := Dictionary.mk (fun _ => 0%nat) 0.
Definition draws1 : Dictionary.state three_words := Dictionary.mk (fun _ => 0%nat) 1.

(** Witness of C14: "PLANE" is accepted on a fresh session. *)
Lemma appendGuess_dictionary_witness :
  draws1 = draws1 /\
  (inr tt = (inr tt : Exn + unit) <->
   0 < 6 /\ js_length (js_toUpperCase "plane") = 5 /\ js_toUpperCase "plane" ∈ three_words).
Proof.
  apply (Dictionary.appendGuess_dictionary three_words
           (mkWordle 5 6 (replicate 6 Null) "APPLE" 0) (draws1)
           "plane" (inr tt)
           (incr_currGuess (store_guess (buildGuessFromWord "APPLE" "PLANE")
              (mkWordle 5 6 (replicate 6 Null) "APPLE" 0)))).
  reflexivity.
Defined.

(** Witness of C15: the fresh session built over [three_words]. *)
Lemma dictionary_can_end_witness :
  exists g', appendGuess "APPLE" (mkWordle 5 6 (replicate 6 Null) "APPLE" 0,
                                  draws1) =
             (inr tt, (g', draws1)) /\
    isSolved g' = true /\ shouldEndGame g' = true.
Proof.
  apply (Dictionary.dictionary_can_end three_words).
  - apply (reachable_new None draws0). reflexivity.
  - reflexivity.
Defined.
