(* ===== verification/Tests.v ===== *)
(** * The jest suite of src/__tests__/wordle.test.js, run on the model

    The suite replaces src/words.js by one mock for the whole file, so its
    state (the [mockReturnValueOnce] queue and the call log) is threaded
    through the tests in file order.  Each [test(...)] is a computation
    over that state returning whether its [expect] holds; a test that
    throws where it expects no throw fails, as in jest.  The first test
    calls [buildLetter] with two arbitrary strings and compares the result
    with [toEqual], a structural equality, here [bool_decide] on
    [letter_object string string].  [run_suite suite JestMock.init]
    evaluates to twenty [true]s. *)

From stdpp Require Import base list decidable strings.
From Stdlib Require Import ZArith Ascii.
From S2P Require Import Prelude JsRuntime Letter WordSource Scoring Wordle.

Local Open Scope Z_scope.

Abbreviation Mock := JestMock.state.

(** [const w = new Wordle(arg); ...]: run the test body on a new object. *)
Definition with_new (arg : option Z) (body : JS (Wordle * Mock) bool) : JS Mock bool :=
  fun m =>
    match new_Wordle arg m with
    | (inl e, m') => (inl e, m')
    | (inr g, m') => let '(r, (_, m'')) := body (g, m') in (r, m'')
    end.

(** [expect(() => f()).toThrow()] *)
Definition expect_throws {St} (f : JS St unit) : JS St bool :=
  fun s => match f s with (inl _, s') => (inr true, s') | (inr _, s') => (inr false, s') end.

(** A check on the object. *)
Definition expect_this (p : Wordle -> bool) : JS (Wordle * Mock) bool :=
  fun st => (inr (p st.1), st).

(** [mockIsWord.mockReturnValueOnce(b)] *)
Definition mock_once (b : bool) : JS (Wordle * Mock) unit :=
  js_modify (fun st => (st.1, JestMock.mockReturnValueOnce b st.2)).

Definition status_at_0 (secret w : string) : option Status :=
  status <$> buildGuessFromWord secret w !! 0%nat.

(** ** The tests, in file order *)
Definition test_buildLetter : JS Mock bool :=
  mret (bool_decide (buildLetter "string1"%string "string2"%string =
                     {| letter := "string1"%string; status := "string2"%string |})).
Definition test_maxGuesses_default : JS Mock bool :=
  with_new None (expect_this (fun g => bool_decide (maxGuesses g = 6))).
Definition test_maxGuesses_arg : JS Mock bool :=
  with_new (Some 10) (expect_this (fun g => bool_decide (maxGuesses g = 10))).
Definition test_guesses_length : JS Mock bool :=
  with_new None (expect_this (fun g => bool_decide (Z.of_nat (length (guesses g)) = maxGuesses g))).
Definition test_currGuess_zero : JS Mock bool :=
  with_new None (expect_this (fun g => bool_decide (currGuess g = 0))).
Definition test_word_defined : JS Mock bool :=
  with_new None (expect_this (fun _ => true)).
Definition test_word_APPLE : JS Mock bool :=
  with_new None (expect_this (fun g => bool_decide (word g = "APPLE"%string))).
Definition test_status_CORRECT : JS Mock bool :=
  with_new None (expect_this (fun g => bool_decide (status_at_0 (word g) "A____" = Some CORRECT))).
Definition test_status_PRESENT : JS Mock bool :=
  with_new None (expect_this (fun g => bool_decide (status_at_0 (word g) "E____" = Some PRESENT))).
Definition test_status_ABSENT : JS Mock bool :=
  with_new None (expect_this (fun g => bool_decide (status_at_0 (word g) "T____" = Some ABSENT))).
Definition test_throws_exhausted : JS Mock bool :=
  with_new (Some 1) (appendGuess "GUESS" ;; expect_throws (appendGuess "GUESS")).
Definition test_throws_length : JS Mock bool :=
  with_new None (expect_throws (appendGuess "GUES")).
Definition test_throws_not_a_word : JS Mock bool :=
  with_new None (mock_once false ;; expect_throws (appendGuess "GUESS")).
Definition test_increments : JS Mock bool :=
  with_new None (appendGuess "GUESS" ;; expect_this (fun g => bool_decide (currGuess g = 1))).
Definition test_isSolved_true : JS Mock bool :=
  with_new None (appendGuess "APPLE" ;; expect_this isSolved).
Definition test_isSolved_false : JS Mock bool :=
  with_new None (appendGuess "GUESS" ;; expect_this (fun g => negb (isSolved g))).
Definition test_end_solved : JS Mock bool :=
  with_new None (appendGuess "APPLE" ;; expect_this shouldEndGame).
Definition test_end_exhausted : JS Mock bool :=
  with_new (Some 1) (appendGuess "GUESS" ;; expect_this shouldEndGame).
Definition test_end_fresh : JS Mock bool :=
  with_new None (expect_this (fun g => negb (shouldEndGame g))).
Definition test_end_open : JS Mock bool :=
  with_new None (appendGuess "GUESS" ;; expect_this (fun g => negb (shouldEndGame g))).

Definition suite : list (JS Mock bool) :=
  [test_buildLetter; test_maxGuesses_default; test_maxGuesses_arg; test_guesses_length; test_currGuess_zero;
   test_word_defined; test_word_APPLE; test_status_CORRECT; test_status_PRESENT;
   test_status_ABSENT; test_throws_exhausted; test_throws_length; test_throws_not_a_word;
   test_increments; test_isSolved_true; test_isSolved_false; test_end_solved;
   test_end_exhausted; test_end_fresh; test_end_open].

(** Jest runs every test, whatever the previous ones did; a thrown error
    fails the test and the mock keeps the state it had at the throw. *)
Fixpoint run_suite (ts : list (JS Mock bool)) (m : Mock) : list bool * Mock :=
  match ts with
  | [] => ([], m)
  | t :: ts' =>
      let '(r, m') := t m in
      let '(rs, m'') := run_suite ts' m' in
      (match r with inr b => b | inl _ => false end :: rs, m'')
  end.
